(** * PAI-RAG: multi-retriever fusion and multi-modal synthesis

    A shallow embedding of
      - [src/pai_rag/integrations/retrievers/fusion_retriever.py]
      - [src/pai_rag/integrations/query_engine/multi_modal_query_engine.py]
    together with the properties the specification states about them.

    Modelling conventions.
      - A Python [float] score is an exact rational ([Q]); equality of scores
        is [Qeq].  Rounding is therefore not modelled, and the statements
        about normalised scores and weights carry a bound on the magnitude
        of their inputs, inside which binary64 arithmetic neither overflows
        nor cancels.
      - The arithmetic lines of weight normalisation and of min-max
        normalisation are embedded a second time on binary64 floats
        ([float_init_retriever_weights], [float_min_max_normalized]), to
        evaluate them where rounding or overflow decides the outcome.
      - [Optional[float]] is [option Q].
      - A Python [dict] is an association list in insertion order (iteration
        order of a dict is its insertion order).
      - A raised exception is the [Err] case of [Res].
      - Every [NodeWithScore] in a result list is a value of its own: result
        lists do not alias one wrapper object twice. *)

From Stdlib Require Import List String Bool Arith ZArith QArith Lia Lqa.
From Stdlib Require Import Permutation Sorted PrimFloat.
Import ListNotations.

Set Implicit Arguments.
Open Scope Q_scope.

(* A decimal float literal denotes the nearest binary64 value, as in Python. *)
Set Warnings "-inexact-float".

(** ** Exceptions *)

Inductive PyErr : Type :=
| TypeError
| AttributeError
| ZeroDivisionError
| ImportError
| IndexError
| KeyError
| ValueError
| UpstreamError.

Inductive Res (A : Type) : Type :=
| Ok (a : A)
| Err (e : PyErr).

Arguments Ok {A} a.
Arguments Err {A} e.

Definition bind {A B : Type} (m : Res A) (f : A -> Res B) : Res B :=
  match m with
  | Ok a => f a
  | Err e => Err e
  end.

Notation "'let*' x ':=' m 'in' k" := (bind m (fun x => k))
  (at level 10, x pattern, m at level 100, k at level 200).

Definition is_ok {A : Type} (m : Res A) : bool :=
  match m with Ok _ => true | Err _ => false end.

(** [for x in l: st = body(x, st)] where the body may raise. *)
Fixpoint for_each {A S : Type} (body : A -> S -> Res S) (l : list A) (st : S)
  : Res S :=
  match l with
  | [] => Ok st
  | x :: l' => let* st' := body x st in for_each body l' st'
  end.

(** [[f(x) for x in l]] where [f] may raise. *)
Fixpoint map_res {A B : Type} (f : A -> Res B) (l : list A) : Res (list B) :=
  match l with
  | [] => Ok []
  | x :: l' => let* y := f x in let* ys := map_res f l' in Ok (y :: ys)
  end.

(** ** Nodes *)

(** The value stored under the metadata key ["image_url"]. *)
Inductive MetaImage : Type :=
| MdAbsent
| MdStr (s : string)
| MdList (l : list string).

(** A nested retrievable object, known by its identity. *)
Inductive Obj : Type :=
| ObjRef (ident : nat).

Inductive NodeClass : Type :=
| TextNode
| ImageNode (image_url : option string)
| IndexNode (index_id : string) (obj : option Obj).

Record BaseNode : Type := mkNode {
  node_class : NodeClass;
  text : string;
  md_image_url : MetaImage;
  md_file_name : string
}.

Record NodeWithScore : Type := mkNWS {
  node : BaseNode;
  score : option Q
}.

Definition get_content (n : BaseNode) : string := text n.

Definition content (n : NodeWithScore) : string := get_content (node n).

Definition set_score (n : NodeWithScore) (s : option Q) : NodeWithScore :=
  {| node := node n; score := s |}.

Definition text_node (t : string) (s : option Q) : NodeWithScore :=
  {| node := {| node_class := TextNode; text := t;
                md_image_url := MdAbsent; md_file_name := "" |};
     score := s |}.

(** ** Python primitives *)

(** [s or d] on an optional float: [None] and [0.0] are both falsy. *)
Definition score_or (d : Q) (s : option Q) : Q :=
  match s with
  | Some q => if Qeq_bool q 0 then d else q
  | None => d
  end.

(** [MyNodeWithScore.get_score(raise_error)]. *)
Definition get_score (raise_error : bool) (s : option Q) : Res Q :=
  match s with
  | None => if raise_error then Err ValueError else Ok 0
  | Some q => Ok q
  end.

Section StableSort.
Variable A : Type.
Variable key : A -> Q.

  (** [x] is placed before the first element whose key is not larger. *)
Fixpoint insert_desc (x : A) (l : list A) : list A :=
    match l with
    | [] => [x]
    | y :: l' =>
        if Qle_bool (key y) (key x) then x :: y :: l'
        else y :: insert_desc x l'
    end.

  (** [sorted(l, key=key, reverse=True)]: descending and stable. *)
Definition sorted_desc (l : list A) : list A :=
    fold_right insert_desc [] l.
End StableSort.

(** [sorted(l, key=lambda x: x.score or 0.0, reverse=True)] *)
Definition sort_by_score_or_zero (l : list NodeWithScore) : list NodeWithScore :=
  sorted_desc (fun x => score_or 0 (score x)) l.

(** ** Dictionaries in insertion order *)

Section Dict.
Variables K V : Type.
Variable eqb : K -> K -> bool.

Definition Dict : Type := list (K * V).

Fixpoint dict_get (k : K) (d : Dict) : option V :=
    match d with
    | [] => None
    | (k', v) :: d' => if eqb k k' then Some v else dict_get k d'
    end.

  (** [k in d] *)
Definition dict_mem (k : K) (d : Dict) : bool :=
    match dict_get k d with Some _ => true | None => false end.

  (** [d[k] = v]: an existing key keeps its place. *)
Fixpoint dict_set (k : K) (v : V) (d : Dict) : Dict :=
    match d with
    | [] => [(k, v)]
    | (k', v') :: d' =>
        if eqb k k' then (k', v) :: d'
        else (k', v') :: dict_set k v d'
    end.

  (** [d.keys()] *)
Definition keys (d : Dict) : list K := map fst d.

(** [d[k]], raising [KeyError] on a missing key. *)
Definition dict_lookup (k : K) (d : Dict) : Res V :=
    match dict_get k d with
    | Some v => Ok v
    | None => Err KeyError
    end.
End Dict.

(** Dictionaries keyed by a content string. *)
Definition TextDict (V : Type) : Type := Dict string V.

(** ** The result mapping [(query, retriever_index) -> result list] *)

Definition QueryTuple : Type := (string * nat)%type.

Definition query_tuple_eqb (a b : QueryTuple) : bool :=
  String.eqb (fst a) (fst b) && Nat.eqb (snd a) (snd b).

Definition Results : Type := Dict QueryTuple (list NodeWithScore).

(** [results.values()] *)
Definition values (r : Results) : list (list NodeWithScore) := map snd r.

(** ** Reciprocal rank fusion *)

(** [k = 60.0] *)
Definition rrf_k : Q := 60.

(** [1.0 / (rank + k)] *)
Definition reciprocal (rank : nat) : Q :=
  1 / (inject_Z (Z.of_nat rank) + rrf_k).

(** The pair [(fused_scores, text_to_node)]. *)
Definition RRFState : Type := (TextDict Q * TextDict NodeWithScore)%type.

(** The body of the inner loop:
    [text_to_node[text] = node_with_score]
    [if text not in fused_scores: fused_scores[text] = 0.0]
    [fused_scores[text] += 1.0 / (rank + k)] *)
Definition rrf_step (rank : nat) (nws : NodeWithScore) (st : RRFState)
  : RRFState :=
  let '(fused_scores, text_to_node) := st in
  let t := content nws in
  let text_to_node := dict_set String.eqb t nws text_to_node in
  let fused_scores :=
    if dict_mem String.eqb t fused_scores then fused_scores
    else dict_set String.eqb t 0 fused_scores in
  let fused_scores :=
    match dict_get String.eqb t fused_scores with
    | Some v => dict_set String.eqb t (v + reciprocal rank) fused_scores
    | None => fused_scores
    end in
  (fused_scores, text_to_node).

(** [for rank, node_with_score in enumerate(l)], counting from [rank]. *)
Fixpoint rrf_inner (rank : nat) (l : list NodeWithScore) (st : RRFState)
  : RRFState :=
  match l with
  | [] => st
  | nws :: l' => rrf_inner (S rank) l' (rrf_step rank nws st)
  end.

(** [for nodes_with_scores in results.values()] *)
Fixpoint rrf_outer (ls : list (list NodeWithScore)) (st : RRFState)
  : RRFState :=
  match ls with
  | [] => st
  | l :: ls' => rrf_outer ls' (rrf_inner 0 (sort_by_score_or_zero l) st)
  end.

(** [reranked_nodes.append(text_to_node[text])]
    [reranked_nodes[-1].score = score] *)
Definition rrf_adjust (text_to_node : TextDict NodeWithScore)
  (item : string * Q) : Res NodeWithScore :=
  let* n := dict_lookup String.eqb (fst item) text_to_node in
  Ok (set_score n (Some (snd item))).

Definition _reciprocal_rerank_fusion (results : Results)
  : Res (list NodeWithScore) :=
  let '(fused_scores, text_to_node) := rrf_outer (values results) ([], []) in
  let reranked_results := sorted_desc snd fused_scores in
  map_res (rrf_adjust text_to_node) reranked_results.

(** ** Comparisons and arithmetic on optional floats *)

Definition Qlt_bool (x y : Q) : bool := negb (Qle_bool y x).

(** [a < b] *)
Definition py_lt (a b : option Q) : Res bool :=
  match a, b with
  | Some x, Some y => Ok (Qlt_bool x y)
  | _, _ => Err TypeError
  end.

(** [a > b] *)
Definition py_gt (a b : option Q) : Res bool := py_lt b a.

(** [a == b]; comparing with [None] for equality does not raise. *)
Definition py_eq (a b : option Q) : bool :=
  match a, b with
  | Some x, Some y => Qeq_bool x y
  | None, None => true
  | _, _ => false
  end.

Definition py_arith (op : Q -> Q -> Q) (a b : option Q) : Res (option Q) :=
  match a, b with
  | Some x, Some y => Ok (Some (op x y))
  | _, _ => Err TypeError
  end.

(** [a / b] *)
Definition py_div (a b : option Q) : Res (option Q) :=
  match a, b with
  | Some x, Some y =>
      if Qeq_bool y 0 then Err ZeroDivisionError else Ok (Some (x / y))
  | _, _ => Err TypeError
  end.

(** [min(l)]: the running minimum is replaced when [item < current]. *)
Definition py_min (l : list (option Q)) : Res (option Q) :=
  match l with
  | [] => Err ValueError
  | x :: rest =>
      for_each (fun item cur =>
                  let* b := py_lt item cur in Ok (if b then item else cur))
               rest x
  end.

(** [max(l)]: the running maximum is replaced when [item > current]. *)
Definition py_max (l : list (option Q)) : Res (option Q) :=
  match l with
  | [] => Err ValueError
  | x :: rest =>
      for_each (fun item cur =>
                  let* b := py_gt item cur in Ok (if b then item else cur))
               rest x
  end.

(** [sum(l)], starting from [0]. *)
Definition py_sum (l : list (option Q)) : Res (option Q) :=
  for_each (fun item acc => py_arith Qplus acc item) l (Some 0).

(** [l[:n]] *)
Definition py_slice_to {A : Type} (n : Z) (l : list A) : list A :=
  if (0 <=? n)%Z then firstn (Z.to_nat n) l
  else firstn (Z.to_nat (Z.of_nat (List.length l) + n)) l.

(** ** The fusion retriever *)

Inductive FUSION_MODES : Type :=
| RECIPROCAL_RANK
| DETAIL_RECIPROCAL_RANK
| RELATIVE_SCORE
| DIST_BASED_SCORE
| SIMPLE
| NO_FUSION.

(** A single-source retriever: its two entry points on a query string. *)
Record BaseRetriever : Type := {
  retrieve : string -> Res (list NodeWithScore);
  aretrieve : string -> Res (list NodeWithScore)
}.

(** The fields of [MyQueryFusionRetriever] after construction.
    [_get_queries] is the LLM-backed query expansion and
    [_aretrieve_from_object] the inherited retrieval from a nested object. *)
Record MyQueryFusionRetriever : Type := {
  num_queries : Z;
  similarity_top_k : Z;
  mode : FUSION_MODES;
  use_async : bool;
  _retrievers : list BaseRetriever;
  _retriever_weights : list Q;
  _get_queries : string -> Res (list string);
  object_map : Dict string Obj;
  _aretrieve_from_object : Obj -> string -> Q -> Res (list NodeWithScore)
}.

(** The weights stored by [__init__]:
    [[1.0 / len(retrievers)] * len(retrievers)] when none are given, else
    [total_weight = sum(retriever_weights)] and
    [[w / total_weight for w in retriever_weights]].
    Sum and quotients are exact here; [float_init_retriever_weights] below
    takes them on binary64 floats, where the sum can overflow or cancel. *)
Definition init_retriever_weights (n_retrievers : nat)
  (retriever_weights : option (list Q)) : Res (list Q) :=
  match retriever_weights with
  | None =>
      if Nat.eqb n_retrievers 0 then Err ZeroDivisionError
      else Ok (repeat (1 / inject_Z (Z.of_nat n_retrievers)) n_retrievers)
  | Some ws =>
      let total_weight := fold_left Qplus ws 0 in
      map_res (fun w => if Qeq_bool total_weight 0 then Err ZeroDivisionError
                        else Ok (w / total_weight)) ws
  end.

Section Fusion.

  (** The floating-point operation [x ** 0.5]. *)
Variable pow_half : Q -> Q.

Variable self : MyQueryFusionRetriever.

  (** *** Relative score fusion *)

  (** [(x - mean_score) ** 2], as an exact square.  (On floats [**] raises
      [OverflowError] once the deviation exceeds about 1.3e154; that error
      has no counterpart here.) *)
Definition sq_dev (mean_score : Q) (x : option Q) : Res (option Q) :=
    let* d := py_arith Qminus x (Some mean_score) in
    py_arith Qmult d d.

  (** The bounds computed for one non-empty result list. *)
Definition bounds (dist_based : bool) (scores : list (option Q))
    : Res (option Q * option Q) :=
    if dist_based then
      let len := Some (inject_Z (Z.of_nat (List.length scores))) in
      let* total := py_sum scores in
      let* mean := py_div total len in
      match mean with
      | None => Err TypeError
      | Some mean_score =>
          let* devs := map_res (sq_dev mean_score) scores in
          let* total_dev := py_sum devs in
          let* variance := py_div total_dev len in
          match variance with
          | None => Err TypeError
          | Some v =>
              let std_dev := pow_half v in
              Ok (Some (mean_score - 3 * std_dev),
                  Some (mean_score + 3 * std_dev))
          end
      end
    else
      let* min_score := py_min scores in
      let* max_score := py_max scores in
      Ok (min_score, max_score).

  (** One round of the first loop: the entry of [min_max_scores] for a
      result list; an empty list gets [(0.0, 0.0)]. *)
Definition min_max_of (dist_based : bool) (nodes_with_scores : list NodeWithScore)
    : Res (option Q * option Q) :=
    match nodes_with_scores with
    | [] => Ok (Some 0, Some 0)
    | _ => bounds dist_based (map score nodes_with_scores)
    end.

Definition min_max_scores (dist_based : bool) (results : Results)
    : Res (Dict QueryTuple (option Q * option Q)) :=
    for_each (fun item acc =>
                let* mm := min_max_of dist_based (snd item) in
                Ok (dict_set query_tuple_eqb (fst item) mm acc))
             results [].

  (** "Scale the score to be between 0 and 1".  Difference and quotient are
      exact here; [float_normalize] below takes them on binary64 floats,
      where the difference of the bounds can overflow. *)
Definition normalize (min_score max_score s : option Q) : Res (option Q) :=
    if py_eq max_score min_score then
      let* positive := py_gt max_score (Some 0) in
      Ok (Some (if positive then 1 else 0))
    else
      let* num := py_arith Qminus s min_score in
      let* den := py_arith Qminus max_score min_score in
      py_div num den.

  (** [self._retriever_weights[retriever_idx]] *)
Definition weight_at (retriever_idx : nat) : Res (option Q) :=
    match nth_error (_retriever_weights self) retriever_idx with
    | Some w => Ok (Some w)
    | None => Err IndexError
    end.

  (** The body of the second loop for one node. *)
Definition rescale (mm : Dict QueryTuple (option Q * option Q))
    (query_tuple : QueryTuple) (n : NodeWithScore) : Res NodeWithScore :=
    let* (min_score, max_score) := dict_lookup query_tuple_eqb query_tuple mm in
    let* s := normalize min_score max_score (score n) in
    let* w := weight_at (snd query_tuple) in
    let* s := py_arith Qmult s w in
    let* s := py_div s (Some (inject_Z (num_queries self))) in
    Ok (set_score n s).

Definition rescale_all (mm : Dict QueryTuple (option Q * option Q))
    (results : Results) : Res Results :=
    map_res (fun item =>
               let* ns := map_res (rescale mm (fst item)) (snd item) in
               Ok (fst item, ns))
            results.

  (** "Sum scores for each node":
      [if text in all_nodes: all_nodes[text].score += node_with_score.score]
      [else: all_nodes[text] = node_with_score] *)
Definition sum_step (n : NodeWithScore) (all_nodes : TextDict NodeWithScore)
    : Res (TextDict NodeWithScore) :=
    let t := content n in
    match dict_get String.eqb t all_nodes with
    | Some seen =>
        let* s := py_arith Qplus (score seen) (score n) in
        Ok (dict_set String.eqb t (set_score seen s) all_nodes)
    | None => Ok (dict_set String.eqb t n all_nodes)
    end.

Definition _relative_score_fusion (results : Results) (dist_based : bool)
    : Res (list NodeWithScore) :=
    let* mm := min_max_scores dist_based results in
    let* results := rescale_all mm results in
    let* all_nodes := for_each sum_step (List.concat (values results)) [] in
    Ok (sort_by_score_or_zero (map snd all_nodes)).

  (** *** Simple fusion *)

  (** [max(a, b)]: [b] wins only when [b > a]. *)
Definition py_max2 (a b : option Q) : Res (option Q) :=
    let* gt := py_gt b a in Ok (if gt then b else a).

  (** [if text in all_nodes:]
      [    max_score = max(node_with_score.score, all_nodes[text].score)]
      [    all_nodes[text].score = max_score]
      [else: all_nodes[text] = node_with_score] *)
Definition simple_step (n : NodeWithScore) (all_nodes : TextDict NodeWithScore)
    : Res (TextDict NodeWithScore) :=
    let t := content n in
    match dict_get String.eqb t all_nodes with
    | Some seen =>
        let* max_score := py_max2 (score n) (score seen) in
        Ok (dict_set String.eqb t (set_score seen max_score) all_nodes)
    | None => Ok (dict_set String.eqb t n all_nodes)
    end.

Definition _simple_fusion (results : Results) : Res (list NodeWithScore) :=
    let* all_nodes := for_each simple_step (List.concat (values results)) [] in
    Ok (sort_by_score_or_zero (map snd all_nodes)).

  (** *** No fusion *)

Definition _no_fusion (results : Results) : Res (list NodeWithScore) :=
    Ok (List.concat (values results)).

End Fusion.

(** ** Concurrent fan-out *)

(** [asyncio.gather] (and [run_async_tasks], which wraps it): every awaitable
    owns the slot at its own position of the result list.  [order] lists the
    task positions in the order in which the tasks complete; a task that
    raises makes the whole gather raise. *)
Section Gather.
Variable R : Type.

Fixpoint slot_set (i : nat) (v : R) (slots : list (option R))
    : list (option R) :=
    match slots, i with
    | [], _ => []
    | _ :: rest, O => Some v :: rest
    | s :: rest, S i' => s :: slot_set i' v rest
    end.

Fixpoint complete_in_order (tasks : list (Res R)) (order : list nat)
    (slots : list (option R)) : Res (list (option R)) :=
    match order with
    | [] => Ok slots
    | i :: order' =>
        match nth_error tasks i with
        | Some (Ok r) => complete_in_order tasks order' (slot_set i r slots)
        | Some (Err e) => Err e
        | None => complete_in_order tasks order' slots
        end
    end.

  (** All slots, when every one of them is filled. *)
Fixpoint collect (slots : list (option R)) : option (list R) :=
    match slots with
    | [] => Some []
    | None :: _ => None
    | Some r :: rest =>
        match collect rest with
        | Some rs => Some (r :: rs)
        | None => None
        end
    end.

  (** [None]: under [order] some task never completes, and neither does the
      gather. *)
Definition gather (tasks : list (Res R)) (order : list nat)
    : option (Res (list R)) :=
    match complete_in_order tasks order (repeat None (List.length tasks)) with
    | Err e => Some (Err e)
    | Ok slots =>
        match collect slots with
        | Some rs => Some (Ok rs)
        | None => None
        end
    end.
End Gather.

Section Retrieve.

Variable pow_half : Q -> Q.
Variable self : MyQueryFusionRetriever.

  (** [task_queries]: one [(query.query_str, i)] per query and retriever. *)
Definition task_queries (queries : list string) : list QueryTuple :=
    flat_map (fun q => map (fun i => (q, i))
                           (seq 0 (List.length (_retrievers self))))
             queries.

  (** [tasks]: the outcome of each [retriever.aretrieve(query)]. *)
Definition tasks (queries : list string) : list (Res (list NodeWithScore)) :=
    flat_map (fun q => map (fun r => aretrieve r q) (_retrievers self)) queries.

  (** [for query_tuple, query_result in zip(task_queries, task_results):]
      [    results[query_tuple] = query_result] *)
Definition zip_results (keys : list QueryTuple)
    (task_results : list (list NodeWithScore)) : Results :=
    fold_left (fun results kv => dict_set query_tuple_eqb (fst kv) (snd kv) results)
              (combine keys task_results) [].

Definition _run_async_queries (order : list nat) (queries : list string)
    : option (Res Results) :=
    match gather (tasks queries) order with
    | None => None
    | Some (Err e) => Some (Err e)
    | Some (Ok task_results) =>
        Some (Ok (zip_results (task_queries queries) task_results))
    end.

  (** Same body, the tasks being run by [run_async_tasks]. *)
Definition _run_nested_async_queries (order : list nat) (queries : list string)
    : option (Res Results) :=
    _run_async_queries order queries.

Definition _run_sync_queries (queries : list string) : Res Results :=
    for_each (fun q results =>
                for_each (fun ir results =>
                            let* r := retrieve (snd ir) q in
                            Ok (dict_set query_tuple_eqb (q, fst ir) r results))
                         (combine (seq 0 (List.length (_retrievers self)))
                                  (_retrievers self))
                         results)
             queries [].

  (** The chain of mode checks shared by [_retrieve] and [_aretrieve]. *)
Definition fuse (results : Results) : Res (list NodeWithScore) :=
    match mode self with
    | RECIPROCAL_RANK =>
        let* r := _reciprocal_rerank_fusion results in
        Ok (py_slice_to (similarity_top_k self) r)
    | RELATIVE_SCORE =>
        let* r := _relative_score_fusion pow_half self results false in
        Ok (py_slice_to (similarity_top_k self) r)
    | DIST_BASED_SCORE =>
        let* r := _relative_score_fusion pow_half self results true in
        Ok (py_slice_to (similarity_top_k self) r)
    | SIMPLE =>
        let* r := _simple_fusion results in
        Ok (py_slice_to (similarity_top_k self) r)
    | NO_FUSION => _no_fusion results
    | DETAIL_RECIPROCAL_RANK => Err ValueError
    end.

  (** [queries = [query_bundle]]
      [if self.num_queries > 1: queries.extend(self._get_queries(...))] *)
Definition build_queries (query_str : string) : Res (list string) :=
    if (1 <? num_queries self)%Z then
      let* more := _get_queries self query_str in Ok (query_str :: more)
    else Ok [query_str].

Definition _retrieve (order : list nat) (query_str : string)
    : option (Res (list NodeWithScore)) :=
    match build_queries query_str with
    | Err e => Some (Err e)
    | Ok queries =>
        if use_async self then
          match _run_nested_async_queries order queries with
          | None => None
          | Some results => Some (let* results := results in fuse results)
          end
        else Some (let* results := _run_sync_queries queries in fuse results)
    end.

Definition _aretrieve (order : list nat) (query_str : string)
    : option (Res (list NodeWithScore)) :=
    match build_queries query_str with
    | Err e => Some (Err e)
    | Ok queries =>
        match _run_async_queries order queries with
        | None => None
        | Some results => Some (let* results := results in fuse results)
        end
    end.

  (** *** Recursive expansion *)

  (** [node.obj or self.object_map.get(node.index_id, None)] *)
Definition nested_object (index_id : string) (obj : option Obj) : option Obj :=
    match obj with
    | Some o => Some o
    | None => dict_get String.eqb index_id (object_map self)
    end.

  (** The body of the loop of [_ahandle_recursive_retrieval]. *)
Definition recursive_step (query_str : string) (n : NodeWithScore)
    (retrieved_nodes : list NodeWithScore) : Res (list NodeWithScore) :=
    let s := score_or 1 (score n) in
    match node_class (node n) with
    | IndexNode index_id obj =>
        match nested_object index_id obj with
        | Some o =>
            let* sub := _aretrieve_from_object self o query_str s in
            Ok (retrieved_nodes ++ sub)
        | None => Ok (retrieved_nodes ++ [n])
        end
    | _ => Ok (retrieved_nodes ++ [n])
    end.

Definition _ahandle_recursive_retrieval (query_str : string)
    (nodes : list NodeWithScore) : Res (list NodeWithScore) :=
    for_each (recursive_step query_str) nodes [].

End Retrieve.

(** ** Node partitioner *)

Definition IMAGE_MAX_PIECES : nat := 5.
Definition TEXT_IMAGE_WEIGHT : Q := 5 # 10.

Definition is_image (n : NodeWithScore) : bool :=
  match node_class (node n) with
  | ImageNode _ => true
  | _ => false
  end.

Definition option_string_eqb (a b : option string) : bool :=
  match a, b with
  | Some x, Some y => String.eqb x y
  | None, None => true
  | _, _ => false
  end.

(** First loop: the set of [image_url]s of the image nodes. *)
Definition collect_image_urls (nodes : list NodeWithScore) : list (option string) :=
  flat_map (fun r => match node_class (node r) with
                     | ImageNode u => [u]
                     | _ => []
                     end) nodes.

(** [image_url in image_urls] *)
Definition url_in (image_url : string) (image_urls : list (option string)) : bool :=
  existsb (option_string_eqb (Some image_url)) image_urls.

(** What [for image_url in metadata["image_url"]] iterates over, guarded by
    the truthiness test of [metadata.get("image_url", None)]: the items of a
    list, the characters of a string, nothing otherwise. *)
Definition image_refs (md : MetaImage) : list string :=
  match md with
  | MdAbsent => []
  | MdStr s => map (fun c => String c EmptyString) (list_ascii_of_string s)
  | MdList l => l
  end.

(** [NodeWithScore(node=ImageNode(image_url=..., extra_info=...), score=...)] *)
Definition text_image_node (origin : NodeWithScore) (image_url : string)
  : NodeWithScore :=
  {| node := {| node_class := ImageNode (Some image_url);
                text := "";
                md_image_url := MdStr image_url;
                md_file_name := md_file_name (node origin) |};
     score := score origin |}.

(** The nodes one text node adds to [text_image_nodes]. *)
Definition promoted (image_urls : list (option string)) (res_node : NodeWithScore)
  : list NodeWithScore :=
  map (text_image_node res_node)
      (filter (fun u => negb (url_in u image_urls))
              (image_refs (md_image_url (node res_node)))).

Record Partition : Type := {
  image_nodes : list NodeWithScore;
  text_image_nodes : list NodeWithScore;
  text_nodes : list NodeWithScore
}.

(** The body of the second loop. *)
Definition partition_step (image_urls : list (option string))
  (p : Partition) (res_node : NodeWithScore) : Partition :=
  if is_image res_node then
    {| image_nodes := image_nodes p ++ [res_node];
       text_image_nodes := text_image_nodes p;
       text_nodes := text_nodes p |}
  else
    {| image_nodes := image_nodes p;
       text_image_nodes := text_image_nodes p ++ promoted image_urls res_node;
       text_nodes := text_nodes p ++ [res_node] |}.

Definition is_none {A : Type} (o : option A) : bool :=
  match o with None => true | Some _ => false end.

Definition score_key (n : NodeWithScore) : Q :=
  match score n with Some q => q | None => 0 end.

(** [l.sort(key=lambda x: x.score, reverse=True)]: comparing a [None] key
    raises, and with two or more items every key is compared. *)
Definition sort_by_score (l : list NodeWithScore) : Res (list NodeWithScore) :=
  if (2 <=? List.length l)%nat && existsb (fun n => is_none (score n)) l
  then Err TypeError
  else Ok (sorted_desc score_key l).

(** [text_image_node.score *= TEXT_IMAGE_WEIGHT] *)
Definition discount (n : NodeWithScore) : Res NodeWithScore :=
  let* s := py_arith Qmult (score n) (Some TEXT_IMAGE_WEIGHT) in
  Ok (set_score n s).

Definition _get_image_and_text_nodes (nodes : list NodeWithScore)
  : Res (list NodeWithScore * list NodeWithScore) :=
  let image_urls := collect_image_urls nodes in
  let p := fold_left (partition_step image_urls) nodes
                     {| image_nodes := []; text_image_nodes := [];
                        text_nodes := [] |} in
  let* image_nodes := sort_by_score (image_nodes p) in
  let* text_image_nodes := sort_by_score (text_image_nodes p) in
  let* text_image_nodes := map_res discount text_image_nodes in
  let image_nodes := image_nodes ++ text_image_nodes in
  Ok (firstn IMAGE_MAX_PIECES image_nodes, text_nodes p).

(** ** Inference clients *)

(** The deltas of a streamed completion, behind a plain or an asynchronous
    generator. *)
Inductive CompletionGen : Type :=
| SyncGen (deltas : list string)
| AsyncGen (deltas : list string).

Record LLM : Type := {
  complete : string -> Res string;
  stream_complete : string -> Res (list string);
  acomplete : string -> Res string;
  astream_complete : string -> Res (list string)
}.

Record MultiModalLLM : Type := {
  mm_complete : string -> list BaseNode -> Res string;
  mm_stream_complete : string -> list BaseNode -> Res (list string);
  mm_acomplete : string -> list BaseNode -> Res string;
  mm_astream_complete : string -> list BaseNode -> Res (list string)
}.

(** What an attribute chain starting at [self._llm] can evaluate to. *)
Inductive PyObject : Type :=
| PyNone
| PyLLM (l : LLM)
| PyMethod (l : LLM) (name : string).

Definition LLM_METHODS : list string :=
  ["complete"; "stream_complete"; "acomplete"; "astream_complete"]%string.

(** [o.name]: a client exposes its methods as bound methods; neither [None]
    nor a bound method has an attribute of such a name. *)
Definition getattr (o : PyObject) (name : string) : Res PyObject :=
  match o with
  | PyLLM l =>
      if existsb (String.eqb name) LLM_METHODS then Ok (PyMethod l name)
      else Err AttributeError
  | PyNone => Err AttributeError
  | PyMethod _ _ => Err AttributeError
  end.

(** [o(prompt=...)] for a streaming method. *)
Definition call_stream (o : PyObject) (prompt : string) : Res CompletionGen :=
  match o with
  | PyMethod l name =>
      if String.eqb name "stream_complete" then
        let* ds := stream_complete l prompt in Ok (SyncGen ds)
      else if String.eqb name "astream_complete" then
        let* ds := astream_complete l prompt in Ok (AsyncGen ds)
      else Err TypeError
  | _ => Err TypeError
  end.

(** [o(prompt=...)] for a single-shot method. *)
Definition call_complete (o : PyObject) (prompt : string) : Res string :=
  match o with
  | PyMethod l name =>
      if String.eqb name "complete" then complete l prompt
      else if String.eqb name "acomplete" then acomplete l prompt
      else Err TypeError
  | _ => Err TypeError
  end.

Definition py_object (llm : option LLM) : PyObject :=
  match llm with
  | Some l => PyLLM l
  | None => PyNone
  end.

(** ** Multi-modal synthesizer *)

(** A prompt template, through its [format(context_str=..., query_str=...)]. *)
Definition Template : Type := string -> string -> string.

(** [aget_token_gen(response_gen)]: an asynchronous generator over the
    completion generator, nothing of which runs before it is consumed. *)
Inductive TokenGen : Type :=
| aget_token_gen (response_gen : CompletionGen).

Inductive RESPONSE_TYPE : Type :=
| AsyncStreamingResponse (response_gen : TokenGen)
                         (source_nodes : list NodeWithScore)
| Response (response : string) (source_nodes : list NodeWithScore)
           (metadata_text_nodes metadata_image_nodes : list NodeWithScore).

Definition is_streaming (r : RESPONSE_TYPE) : bool :=
  match r with
  | AsyncStreamingResponse _ _ => true
  | Response _ _ _ _ => false
  end.

Record MySimpleMultiModalQueryEngine : Type := {
  _need_image : bool;
  _multi_modal_llm : MultiModalLLM;
  _llm : option LLM;
  _text_qa_template : Template;
  _image_qa_template : Template;
  _stream : bool
}.

Definition newline : string := String (Ascii.ascii_of_nat 10) EmptyString.
Definition sep : string := (newline ++ newline)%string.

(** The label of the image section. *)
Definition IMAGE_LIST_LABEL : string := "图片链接列表: ".

(** [f"{context_str}\n\n图片链接列表: \n\n{images_str}\n\n"] *)
Definition with_image_list (context_str images_str : string) : string :=
  (context_str ++ sep ++ IMAGE_LIST_LABEL ++ sep ++ images_str ++ sep)%string.

(** ["\n\n".join([r.node.image_url for r in image_nodes])]; joining an unset
    url raises. *)
Definition join_image_urls (image_nodes : list NodeWithScore) : Res string :=
  let* urls := map_res (fun r => match node_class (node r) with
                                 | ImageNode (Some u) => Ok u
                                 | ImageNode None => Err TypeError
                                 | _ => Err AttributeError
                                 end) image_nodes in
  Ok (String.concat sep urls).

Section Synthesizer.

  (** [DEFAULT_TEXT_QA_PROMPT] *)
Variable DEFAULT_TEXT_QA_PROMPT : Template.

  (** [r.get_content(metadata_mode=MetadataMode.LLM)] *)
Variable get_content_llm : NodeWithScore -> string.

  (** The outcome of importing [OpenAIMultiModal] and building the default
      client [OpenAIMultiModal(model="gpt-4-vision-preview", ...)]; an
      [ImportError] is raised again as an [ImportError]. *)
Variable default_openai_multi_modal : Res MultiModalLLM.

  (** [__init__]; [need_image] is [retriever._need_image]. *)
Definition engine_init (need_image : bool)
    (multi_modal_llm : option MultiModalLLM) (llm : option LLM)
    (text_qa_template image_qa_template : option Template) (stream : bool)
    : Res MySimpleMultiModalQueryEngine :=
    let* mm := match multi_modal_llm with
               | Some m => Ok m
               | None => default_openai_multi_modal
               end in
    Ok {| _need_image := need_image;
          _multi_modal_llm := mm;
          _llm := llm;
          _text_qa_template :=
            match text_qa_template with
            | Some t => t
            | None => DEFAULT_TEXT_QA_PROMPT
            end;
          _image_qa_template :=
            match image_qa_template with
            | Some t => t
            | None => DEFAULT_TEXT_QA_PROMPT
            end;
          _stream := true |}.

Variable self : MySimpleMultiModalQueryEngine.

Definition text_context (text_nodes : list NodeWithScore) : string :=
    String.concat sep (map get_content_llm text_nodes).

  (** The streaming branch of [synthesize]. *)
Definition synthesize_stream (query_str context_str : string)
    (nodes image_nodes : list NodeWithScore) : Res RESPONSE_TYPE :=
    let* completion_response_gen :=
      if _need_image self then
        let* images_str := join_image_urls image_nodes in
        let context_str := with_image_list context_str images_str in
        let fmt_prompt := _image_qa_template self context_str query_str in
        let* ds := mm_stream_complete (_multi_modal_llm self) fmt_prompt
                                      (map node image_nodes) in
        Ok (SyncGen ds)
      else
        let fmt_prompt := _text_qa_template self context_str query_str in
        let* m := getattr (py_object (_llm self)) "acomplete" in
        let* f := getattr m "stream_complete" in
        call_stream f fmt_prompt in
    Ok (AsyncStreamingResponse (aget_token_gen completion_response_gen) nodes).

  (** The batch branch of [synthesize]. *)
Definition synthesize_batch (query_str context_str : string)
    (nodes image_nodes text_nodes : list NodeWithScore) : Res RESPONSE_TYPE :=
    let* llm_response :=
      if _need_image self then
        let* images_str := join_image_urls image_nodes in
        let context_str := with_image_list context_str images_str in
        let fmt_prompt := _image_qa_template self context_str query_str in
        mm_complete (_multi_modal_llm self) fmt_prompt (map node image_nodes)
      else
        let fmt_prompt := _text_qa_template self context_str query_str in
        let* f := getattr (py_object (_llm self)) "complete" in
        call_complete f fmt_prompt in
    Ok (Response llm_response nodes text_nodes image_nodes).

Definition synthesize (query_str : string) (nodes : list NodeWithScore)
    : Res RESPONSE_TYPE :=
    let* (image_nodes, text_nodes) := _get_image_and_text_nodes nodes in
    let context_str := text_context text_nodes in
    let* images_str := join_image_urls image_nodes in
    let context_str := with_image_list context_str images_str in
    if _stream self then
      synthesize_stream query_str context_str nodes image_nodes
    else
      synthesize_batch query_str context_str nodes image_nodes text_nodes.

  (** The streaming branch of [asynthesize]. *)
Definition asynthesize_stream (query_str context_str : string)
    (nodes image_nodes : list NodeWithScore) : Res RESPONSE_TYPE :=
    let* completion_response_gen :=
      if _need_image self then
        let* images_str := join_image_urls image_nodes in
        let context_str := with_image_list context_str images_str in
        let fmt_prompt := _image_qa_template self context_str query_str in
        let* ds := mm_astream_complete (_multi_modal_llm self) fmt_prompt
                                       (map node image_nodes) in
        Ok (AsyncGen ds)
      else
        let fmt_prompt := _text_qa_template self context_str query_str in
        let* f := getattr (py_object (_llm self)) "astream_complete" in
        call_stream f fmt_prompt in
    Ok (AsyncStreamingResponse (aget_token_gen completion_response_gen) nodes).

  (** The batch branch of [asynthesize]. *)
Definition asynthesize_batch (query_str context_str : string)
    (nodes image_nodes text_nodes : list NodeWithScore) : Res RESPONSE_TYPE :=
    let* llm_response :=
      if _need_image self then
        let* images_str := join_image_urls image_nodes in
        let context_str := with_image_list context_str images_str in
        let fmt_prompt := _image_qa_template self context_str query_str in
        mm_acomplete (_multi_modal_llm self) fmt_prompt (map node image_nodes)
      else
        let fmt_prompt := _text_qa_template self context_str query_str in
        let* f := getattr (py_object (_llm self)) "acomplete" in
        call_complete f fmt_prompt in
    Ok (Response llm_response nodes text_nodes image_nodes).

Definition asynthesize (query_str : string) (nodes : list NodeWithScore)
    : Res RESPONSE_TYPE :=
    let* (image_nodes, text_nodes) := _get_image_and_text_nodes nodes in
    let context_str := text_context text_nodes in
    if _stream self then
      asynthesize_stream query_str context_str nodes image_nodes
    else
      asynthesize_batch query_str context_str nodes image_nodes text_nodes.

End Synthesizer.

(** ** Reference formulas and sample inputs *)

(** The sum of [1 / (rank + k)] over the positions of [l], counted from
    [rank], that hold a node of content [t]. *)
Fixpoint rr_contrib (t : string) (rank : nat) (l : list NodeWithScore) : Q :=
  match l with
  | [] => 0
  | n :: l' =>
      (if String.eqb t (content n) then reciprocal rank else 0)
      + rr_contrib t (S rank) l'
  end.

(** The same, summed over every source list, each one ranked by score. *)
Fixpoint rr_total (t : string) (ls : list (list NodeWithScore)) : Q :=
  match ls with
  | [] => 0
  | l :: ls' => rr_total t ls' + rr_contrib t 0 (sort_by_score_or_zero l)
  end.

(** The position of the first node of content [t]. *)
Fixpoint rank_of (t : string) (l : list NodeWithScore) : option nat :=
  match l with
  | [] => None
  | n :: l' =>
      if String.eqb t (content n) then Some O
      else option_map S (rank_of t l')
  end.

(** The score as the specification words it: one term [1 / (rank + k)] for
    every source list in which a node of content [t] appears. *)
Fixpoint rr_one_term_per_list (t : string) (ls : list (list NodeWithScore)) : Q :=
  match ls with
  | [] => 0
  | l :: ls' =>
      rr_one_term_per_list t ls'
      + match rank_of t (sort_by_score_or_zero l) with
        | Some r => reciprocal r
        | None => 0
        end
  end.

(** "Descending by [key]": no later element has a larger key. *)
Definition desc_by (A : Type) (key : A -> Q) : A -> A -> Prop :=
  fun a b => key b <= key a.

(** What the two dictionaries hold after the nodes of contents [seen] have
    been processed and have contributed [acc t] to the content [t]. *)
Record rrf_inv (st : RRFState) (acc : string -> Q) (seen : string -> Prop)
  : Prop := {
  inv_keys : keys (fst st) = keys (snd st);
  inv_nodup : NoDup (keys (fst st));
  inv_seen : forall t, In t (keys (fst st)) <-> seen t;
  inv_value : forall t v, dict_get String.eqb t (fst st) = Some v -> v == acc t;
  inv_fresh : forall t, ~ seen t -> acc t == 0;
  inv_node : forall t n,
      dict_get String.eqb t (snd st) = Some n -> content n = t
}.

(** The two source lists of the end-to-end scenario. *)
Definition scenario : Results :=
  [ (("q"%string, 0%nat),
     [text_node "a" (Some (9 # 10)); text_node "b" (Some (5 # 10))]);
    (("q"%string, 1%nat),
     [text_node "b" (Some (6 # 10)); text_node "c" (Some (3 # 10))]) ].

(** One source list holding the same content twice. *)
Definition twice_in_one_list : Results :=
  [ (("q"%string, 0%nat),
     [text_node "x" (Some (9 # 10)); text_node "x" (Some (5 # 10))]) ].

(** *** Partitioner *)

Definition is_text (n : NodeWithScore) : bool := negb (is_image n).

(** The references of a text node that no image node of the input carries. *)
Definition references_to_promote (nodes : list NodeWithScore)
  (origin : NodeWithScore) : list string :=
  filter (fun u => negb (url_in u (collect_image_urls nodes)))
         (image_refs (md_image_url (node origin))).

(** An image node for [image_url], scored at [TEXT_IMAGE_WEIGHT] times the
    score of the text node it comes from. *)
Definition weighted_image (origin : NodeWithScore) (image_url : string)
  : NodeWithScore :=
  set_score (text_image_node origin image_url)
            (Some (score_key origin * TEXT_IMAGE_WEIGHT)).

(** One image node per reference to promote, text node after text node. *)
Definition expected_synthesized (nodes : list NodeWithScore)
  : list NodeWithScore :=
  flat_map (fun origin => map (weighted_image origin)
                              (references_to_promote nodes origin))
           (filter is_text nodes).

Definition image_node (url : string) (s : option Q) : NodeWithScore :=
  {| node := {| node_class := ImageNode (Some url); text := "";
                md_image_url := MdAbsent; md_file_name := "" |};
     score := s |}.

Definition text_with_images (t : string) (urls : list string) (s : option Q)
  : NodeWithScore :=
  {| node := {| node_class := TextNode; text := t;
                md_image_url := MdList urls; md_file_name := "doc.pdf" |};
     score := s |}.

(** A text node naming the same image twice. *)
Definition repeated_reference : list NodeWithScore :=
  [text_with_images "t" ["u"; "u"]%string (Some (8 # 10))].

(** An image node, and a text node naming that image and another one. *)
Definition mixed_nodes : list NodeWithScore :=
  [image_node "i1" (Some (9 # 10));
   text_with_images "t" ["i1"; "u"]%string (Some (8 # 10));
   image_node "i2" (Some (95 # 100))].

(** *** Sample retrievers and clients *)

(** A square root on rationals, rounded down to a multiple of the inverse of
    the argument's denominator; it stands for [x ** 0.5] in sample runs. *)
Definition sqrt_floor (x : Q) : Q :=
  inject_Z (Z.sqrt (Qnum x * Zpos (Qden x))) / inject_Z (Zpos (Qden x)).

Definition fixed_retriever (l : list NodeWithScore) : BaseRetriever :=
  {| retrieve := fun _ => Ok l; aretrieve := fun _ => Ok l |}.

(** Two sources answering as in the end-to-end scenario, equal weights, no
    query expansion. *)
Definition two_sources (m : FUSION_MODES) (top_k : Z) : MyQueryFusionRetriever :=
  {| num_queries := 1;
     similarity_top_k := top_k;
     mode := m;
     use_async := true;
     _retrievers :=
       [fixed_retriever [text_node "a" (Some (9 # 10));
                         text_node "b" (Some (5 # 10))];
        fixed_retriever [text_node "b" (Some (6 # 10));
                         text_node "c" (Some (3 # 10))]];
     _retriever_weights := [1 # 2; 1 # 2];
     _get_queries := fun _ => Ok [];
     object_map := [];
     _aretrieve_from_object :=
       fun _ _ s => Ok [text_node "nested" (Some s)] |}.

(** One source list whose only node has no score. *)
Definition unset_score : Results :=
  [ (("q"%string, 0%nat), [text_node "a" None]) ].

(** The same content from two sources, once without a score. *)
Definition unset_score_twice : Results :=
  [ (("q"%string, 0%nat), [text_node "a" None]);
    (("q"%string, 1%nat), [text_node "a" (Some (5 # 10))]) ].

(** A node pointing at a nested object, with a score set to zero. *)
Definition zero_scored_index_node : NodeWithScore :=
  {| node := {| node_class := IndexNode "idx" (Some (ObjRef 7));
                text := "summary"; md_image_url := MdAbsent;
                md_file_name := "" |};
     score := Some 0 |}.

Definition echo_llm : LLM :=
  {| complete := fun p => Ok p;
     stream_complete := fun p => Ok [p];
     acomplete := fun p => Ok p;
     astream_complete := fun p => Ok [p] |}.

Definition echo_multi_modal_llm : MultiModalLLM :=
  {| mm_complete := fun p _ => Ok p;
     mm_stream_complete := fun p _ => Ok [p];
     mm_acomplete := fun p _ => Ok p;
     mm_astream_complete := fun p _ => Ok [p] |}.

Definition plain_template : Template :=
  fun context_str query_str => (context_str ++ query_str)%string.

(** The engine [__init__] builds from a multi-modal client [mm]. *)
Definition built (DEFAULT_TEXT_QA_PROMPT : Template) (need_image : bool)
  (mm : MultiModalLLM) (llm : option LLM)
  (text_qa_template image_qa_template : option Template)
  : MySimpleMultiModalQueryEngine :=
  {| _need_image := need_image;
     _multi_modal_llm := mm;
     _llm := llm;
     _text_qa_template :=
       match text_qa_template with
       | Some t => t
       | None => DEFAULT_TEXT_QA_PROMPT
       end;
     _image_qa_template :=
       match image_qa_template with
       | Some t => t
       | None => DEFAULT_TEXT_QA_PROMPT
       end;
     _stream := true |}.

(** A magnitude far inside the binary64 range (whose largest finite value
    is about 1.8e308): sums and differences of values this size are finite. *)
Definition MODERATE : Q := inject_Z (10 ^ 300).

Definition moderate (x : Q) : Prop := - MODERATE <= x /\ x <= MODERATE.

(** Every node of the list carries a score of moderate magnitude. *)
Definition moderate_scores (l : list NodeWithScore) : Prop :=
  Forall (fun n => match score n with
                   | Some s => moderate s
                   | None => False
                   end) l.

(** The weight lists for which [__init__] stores weights summing to 1: no
    list and at least one retriever, or non-negative weights whose sum is
    positive and of moderate size, so that the sum neither cancels nor
    overflows. *)
Definition well_scaled (n_retrievers : nat) (retriever_weights : option (list Q))
  : Prop :=
  match retriever_weights with
  | None => n_retrievers <> O
  | Some ws =>
      Forall (fun w => 0 <= w) ws
      /\ 0 < fold_left Qplus ws 0
      /\ fold_left Qplus ws 0 <= MODERATE
  end.

(** The scores of the relative-score example, as one result list. *)
Definition example_scores : list NodeWithScore :=
  [text_node "n1" (Some (2 # 10)); text_node "n2" (Some (8 # 10));
   text_node "n3" (Some (5 # 10))].

(** The relative-score example as a result mapping with one source. *)
Definition example_results : Results := [ (("q"%string, 0%nat), example_scores) ].

(** ** Binary64 arithmetic

    The arithmetic of [__init__] (lines 131-132) and of the min-max branch of
    [_relative_score_fusion] (lines 231-244) once more, on IEEE 754 binary64
    values as Python's [float] has them: the same steps, with rounding,
    overflow to [inf] and [nan] where they occur. *)

(** [a / b]: a zero divisor raises; any other quotient follows IEEE 754. *)
Definition float_truediv (a b : float) : Res float :=
  if PrimFloat.eqb b 0%float then Err ZeroDivisionError
  else Ok (PrimFloat.div a b).

(** [sum(l)]: the items are added from the left, starting from 0 (the
    plain summation of CPython up to 3.11; the compensated summation of
    later versions returns [inf] on an overflow just the same). *)
Definition float_sum (l : list float) : float :=
  fold_left PrimFloat.add l 0%float.

(** [total_weight = sum(retriever_weights)]
    [[w / total_weight for w in retriever_weights]] *)
Definition float_init_retriever_weights (retriever_weights : list float)
  : Res (list float) :=
  let total_weight := float_sum retriever_weights in
  map_res (fun w => float_truediv w total_weight) retriever_weights.

(** [min(l)] and [max(l)] *)
Definition float_min (l : list float) : Res float :=
  match l with
  | [] => Err ValueError
  | x :: rest =>
      Ok (fold_left (fun cur item => if PrimFloat.ltb item cur then item else cur)
                    rest x)
  end.

Definition float_max (l : list float) : Res float :=
  match l with
  | [] => Err ValueError
  | x :: rest =>
      Ok (fold_left (fun cur item => if PrimFloat.ltb cur item then item else cur)
                    rest x)
  end.

(** "Scale the score to be between 0 and 1" *)
Definition float_normalize (min_score max_score s : float) : Res float :=
  if PrimFloat.eqb max_score min_score then
    Ok (if PrimFloat.ltb 0%float max_score then 1%float else 0%float)
  else
    float_truediv (PrimFloat.sub s min_score) (PrimFloat.sub max_score min_score).

(** The scores of one non-empty result list after min-max normalisation with
    the list's own bounds. *)
Definition float_min_max_normalized (scores : list float) : Res (list float) :=
  let* min_score := float_min scores in
  let* max_score := float_max scores in
  map_res (float_normalize min_score max_score) scores.

(** A normalised score "between 0 and 1". *)
Definition float_in_unit_interval (v : float) : bool :=
  PrimFloat.leb 0%float v && PrimFloat.leb v 1%float.


(** ** Further reference notions *)

(** Every node of the list carries a score. *)
Definition all_scored (l : list NodeWithScore) : Prop :=
  Forall (fun n => score n <> None) l.

(** The nodes of a result mapping, in iteration order. *)
Definition all_nodes_of (results : Results) : list NodeWithScore :=
  List.concat (values results).

Definition has_content (t : string) (n : NodeWithScore) : bool :=
  String.eqb (content n) t.

(** What [all_nodes] holds in simple fusion once the nodes [seen] have been
    processed: one entry per content met, carrying the payload of the first
    node of that content and the largest score met for it. *)
Record simple_inv (seen : list NodeWithScore) (d : TextDict NodeWithScore)
  : Prop := {
  sinv_nodup : NoDup (keys d);
  sinv_keys : forall t, In t (keys d) <-> In t (map content seen);
  sinv_entry : forall t m,
      dict_get String.eqb t d = Some m ->
      content m = t
      /\ exists s,
          score m = Some s
          /\ (forall n, In n seen -> content n = t -> score_key n <= s)
          /\ (exists n, In n seen /\ content n = t /\ score n = Some s)
          /\ (exists n0, find (has_content t) seen = Some n0
                         /\ node m = node n0)
}.



Section Rescaled.
Variable pow_half : Q -> Q.
Variable self : MyQueryFusionRetriever.
Variable dist_based : bool.



End Rescaled.


(** The fields of a fusion retriever with no retriever, given weights and a
    given number of queries. *)
Definition bare_retriever (weights : list Q) (nq : Z) : MyQueryFusionRetriever :=
  {| num_queries := nq;
     similarity_top_k := 2;
     mode := RELATIVE_SCORE;
     use_async := false;
     _retrievers := [];
     _retriever_weights := weights;
     _get_queries := fun _ => Ok [];
     object_map := [];
     _aretrieve_from_object := fun _ _ _ => Ok [] |}.

Definition failing_retriever (e : PyErr) : BaseRetriever :=
  {| retrieve := fun _ => Err e; aretrieve := fun _ => Err e |}.

(** A source that answers and a source that raises. *)
Definition one_failing : MyQueryFusionRetriever :=
  {| num_queries := 1;
     similarity_top_k := 2;
     mode := SIMPLE;
     use_async := true;
     _retrievers :=
       [fixed_retriever [text_node "a" (Some (9 # 10))];
        failing_retriever UpstreamError];
     _retriever_weights := [1 # 2; 1 # 2];
     _get_queries := fun _ => Ok [];
     object_map := [];
     _aretrieve_from_object := fun _ _ _ => Ok [] |}.

(** A retriever's two entry points give the same outcome on every query. *)
Definition entry_points_agree (r : BaseRetriever) : Prop :=
  forall q, retrieve r q = aretrieve r q.

(** The number of nodes of content [t]. *)
Definition occurrences (t : string) (l : list NodeWithScore) : nat :=
  List.length (filter (has_content t) l).

(** The nodes of a result mapping in the order in which reciprocal rank
    fusion meets them: list after list, each list ranked by score. *)
Definition ranked_nodes_of (results : Results) : list NodeWithScore :=
  List.concat (map sort_by_score_or_zero (values results)).

(** The node has no nested object to expand: it is no [IndexNode], or it
    is one without [obj] whose [index_id] the object map does not know. *)
Definition is_leaf (self : MyQueryFusionRetriever) (n : NodeWithScore) : Prop :=
  match node_class (node n) with
  | IndexNode index_id obj => nested_object self index_id obj = None
  | _ => True
  end.

(** *** When the partitioner raises *)

Definition unscored (n : NodeWithScore) : bool := is_none (score n).

(** Two or more image nodes, one of them without a score. *)
Definition unscored_image_among_several (nodes : list NodeWithScore) : bool :=
  (2 <=? List.length (filter is_image nodes))%nat
  && existsb unscored (filter is_image nodes).

(** A text node without a score that has an image reference to promote. *)
Definition unscored_promotion (nodes : list NodeWithScore) : bool :=
  existsb (fun n => unscored n
                    && negb (Nat.eqb (List.length (references_to_promote nodes n)) 0))
          (filter is_text nodes).

(** Seven image nodes and a text node naming an eighth image. *)
Definition seven_images : list NodeWithScore :=
  [image_node "i1" (Some (9 # 10)); image_node "i2" (Some (8 # 10));
   image_node "i3" (Some (7 # 10)); image_node "i4" (Some (6 # 10));
   image_node "i5" (Some (5 # 10)); image_node "i6" (Some (4 # 10));
   image_node "i7" (Some (3 # 10));
   text_with_images "t" ["u"]%string (Some 1)].

(** ** Query expansion *)

Definition newline_char : Ascii.ascii := Ascii.ascii_of_nat 10.

(** [s.split("\n")]: the pieces between line breaks, empty pieces kept. *)
Fixpoint split_lines (s : string) : list string :=
  match s with
  | EmptyString => [EmptyString]
  | String c s' =>
      if Ascii.eqb c newline_char then EmptyString :: split_lines s'
      else match split_lines s' with
           | [] => [String c EmptyString]
           | piece :: pieces => String c piece :: pieces
           end
  end.

(** Truthiness of a string. *)
Definition non_empty (s : string) : bool :=
  match s with
  | EmptyString => false
  | String _ _ => true
  end.

Fixpoint has_newline (s : string) : bool :=
  match s with
  | EmptyString => false
  | String c s' => Ascii.eqb c newline_char || has_newline s'
  end.

Section QueryExpansion.

(** [str.strip()] *)
Variable strip : string -> string.

(** [self.query_gen_prompt.format(num_queries=..., query=...)] *)
Variable format_prompt : Z -> string -> string.

(** [self._llm.complete(prompt).text] *)
Variable llm_complete : string -> Res string.

(** The body of [_get_queries], for a retriever whose [num_queries] is
    [nq]. *)
Definition get_queries (nq : Z) (original_query : string) : Res (list string) :=
  let prompt_str := format_prompt (nq - 1) original_query in
  let* response_text := llm_complete prompt_str in
  let queries := split_lines response_text in
  let queries := map strip (filter (fun q => non_empty (strip q)) queries) in
  Ok (py_slice_to (nq - 1) queries).

End QueryExpansion.

(** A stand-in for [str.strip()] in sample runs: leading spaces removed. *)
Fixpoint drop_spaces (s : string) : string :=
  match s with
  | String c s' => if Ascii.eqb c (Ascii.ascii_of_nat 32) then drop_spaces s' else s
  | EmptyString => EmptyString
  end.

(** A retriever expanding queries with [get_queries] from an LLM that
    answers three lines, one of them blank. *)
Definition expanding (nq : Z) : MyQueryFusionRetriever :=
  {| num_queries := nq;
     similarity_top_k := 2;
     mode := SIMPLE;
     use_async := true;
     _retrievers := [fixed_retriever [text_node "a" (Some (9 # 10))]];
     _retriever_weights := [1];
     _get_queries :=
       get_queries drop_spaces (fun _ q => q)
                   (fun _ => Ok ("one" ++ newline ++ "  " ++ newline ++ " two")%string)
                   nq;
     object_map := [];
     _aretrieve_from_object := fun _ _ _ => Ok [] |}.

(** * Properties *)

(** ** The error monad *)

Lemma bind_ok_inv (A B : Type) (m : Res A) (f : A -> Res B) (b : B) :
  bind m f = Ok b -> exists a, m = Ok a /\ f a = Ok b.
Proof.
  destruct m as [a|e]; simpl; intros H; [exists a; auto | discriminate].
Qed.

Lemma map_res_total (A B : Type) (f : A -> Res B) (g : A -> B) (l : list A) :
  (forall x, In x l -> f x = Ok (g x)) -> map_res f l = Ok (map g l).
Proof.
  induction l as [|x l IH]; simpl; intros H; [reflexivity|].
  rewrite (H x (or_introl eq_refl)); simpl.
  rewrite IH by (intros y Hy; apply H; right; exact Hy).
  reflexivity.
Qed.

(** ** Stable descending sort *)

Section SortFacts.
Variable A : Type.
Variable key : A -> Q.

Lemma insert_desc_perm (x : A) (l : list A) :
  Permutation (insert_desc key x l) (x :: l).
Proof.
  induction l as [|y l IH]; simpl; [apply Permutation_refl|].
  destruct (Qle_bool (key y) (key x)); [apply Permutation_refl|].
  eapply Permutation_trans; [apply perm_skip, IH | apply perm_swap].
Qed.

Lemma sorted_desc_perm (l : list A) : Permutation (sorted_desc key l) l.
Proof.
  induction l as [|x l IH]; simpl; [constructor|].
  eapply Permutation_trans; [apply insert_desc_perm | apply perm_skip, IH].
Qed.

Lemma insert_desc_sorted (x : A) (l : list A) :
  StronglySorted (desc_by key) l -> StronglySorted (desc_by key) (insert_desc key x l).
Proof.
  induction l as [|y l IH]; simpl; intros Hs.
  - constructor; constructor.
  - destruct (Qle_bool (key y) (key x)) eqn:E.
    + apply Qle_bool_iff in E.
      constructor; [exact Hs|].
      inversion Hs as [|? ? Hl Hy]; subst.
      constructor; [exact E|].
      eapply Forall_impl; [|exact Hy].
      intros z Hz; unfold desc_by in *; eapply Qle_trans; eauto.
    + inversion Hs as [|? ? Hl Hy]; subst.
      constructor; [apply IH; exact Hl|].
      assert (Hlt : key x < key y).
      { apply Qnot_le_lt; intros C; apply Qle_bool_iff in C; congruence. }
      eapply Permutation_Forall; [apply Permutation_sym, insert_desc_perm|].
      constructor; [apply Qlt_le_weak; exact Hlt | exact Hy].
Qed.

Lemma sorted_desc_sorted (l : list A) : StronglySorted (desc_by key) (sorted_desc key l).
Proof.
  induction l as [|x l IH]; simpl; [constructor | apply insert_desc_sorted, IH].
Qed.

(** Stability: the elements of any one key keep their relative order. *)
Lemma insert_desc_stable (q : Q) (x : A) (l : list A) :
  StronglySorted (desc_by key) l ->
  filter (fun a => Qeq_bool (key a) q) (insert_desc key x l)
  = filter (fun a => Qeq_bool (key a) q) (x :: l).
Proof.
  induction l as [|y l IH]; intros Hs; [reflexivity|].
  simpl insert_desc.
  destruct (Qle_bool (key y) (key x)) eqn:E; [reflexivity|].
  inversion Hs as [|? ? Hl Hy]; subst.
  change (filter (fun a => Qeq_bool (key a) q) (y :: insert_desc key x l))
    with (if Qeq_bool (key y) q
          then y :: filter (fun a => Qeq_bool (key a) q) (insert_desc key x l)
          else filter (fun a => Qeq_bool (key a) q) (insert_desc key x l)).
  rewrite (IH Hl). simpl.
  destruct (Qeq_bool (key x) q) eqn:Ex, (Qeq_bool (key y) q) eqn:Ey;
    try reflexivity.
  apply Qeq_bool_iff in Ex, Ey.
  assert (C : Qle_bool (key y) (key x) = true).
  { apply Qle_bool_iff. rewrite Ex, Ey. apply Qle_refl. }
  congruence.
Qed.

Lemma sorted_desc_stable (q : Q) (l : list A) :
  filter (fun a => Qeq_bool (key a) q) (sorted_desc key l)
  = filter (fun a => Qeq_bool (key a) q) l.
Proof.
  induction l as [|x l IH]; [reflexivity|].
  simpl sorted_desc.
  rewrite insert_desc_stable by apply sorted_desc_sorted.
  simpl. rewrite IH. reflexivity.
Qed.

Lemma sorted_desc_length (l : list A) :
  List.length (sorted_desc key l) = List.length l.
Proof. apply Permutation_length, sorted_desc_perm. Qed.

Lemma sorted_desc_In (x : A) (l : list A) :
  In x (sorted_desc key l) <-> In x l.
Proof.
  split; apply Permutation_in;
    [apply sorted_desc_perm | apply Permutation_sym, sorted_desc_perm].
Qed.

End SortFacts.

Lemma StronglySorted_map (A : Type) (key : A -> Q) (l : list A) :
  StronglySorted (desc_by key) l <->
  StronglySorted (fun x y : Q => y <= x) (map key l).
Proof.
  induction l as [|a l IH]; simpl.
  - split; constructor.
  - split; intros H; inversion H as [|? ? Hl Ha]; subst;
      (constructor; [apply IH; exact Hl|]).
    + rewrite Forall_map. exact Ha.
    + rewrite Forall_map in Ha. exact Ha.
Qed.

(** ** Dictionaries *)

Section DictFacts.
Variables K V : Type.
Variable eqb : K -> K -> bool.
Hypothesis eqb_spec : forall a b, eqb a b = true <-> a = b.

Lemma eqb_refl' (k : K) : eqb k k = true.
Proof. apply eqb_spec; reflexivity. Qed.

Lemma eqb_neq (a b : K) : a <> b -> eqb a b = false.
Proof.
  intros H; destruct (eqb a b) eqn:E; [|reflexivity].
  apply eqb_spec in E; contradiction.
Qed.

Lemma dict_get_set_same (k : K) (v : V) (d : Dict K V) :
  dict_get eqb k (dict_set eqb k v d) = Some v.
Proof.
  induction d as [|[k' v'] d IH]; simpl.
  - rewrite eqb_refl'; reflexivity.
  - destruct (eqb k k') eqn:E; simpl; rewrite E; [reflexivity | exact IH].
Qed.

Lemma dict_get_set_other (k k0 : K) (v : V) (d : Dict K V) :
  k0 <> k -> dict_get eqb k0 (dict_set eqb k v d) = dict_get eqb k0 d.
Proof.
  intros Hne; induction d as [|[k' v'] d IH]; simpl.
  - rewrite eqb_neq by exact Hne; reflexivity.
  - destruct (eqb k k') eqn:E; simpl.
    + apply eqb_spec in E; subst k'. rewrite eqb_neq by exact Hne. reflexivity.
    + rewrite IH; reflexivity.
Qed.

Lemma dict_get_None (k : K) (d : Dict K V) :
  dict_get eqb k d = None <-> ~ In k (keys d).
Proof.
  induction d as [|[k' v'] d IH]; simpl.
  - tauto.
  - destruct (eqb k k') eqn:E.
    + apply eqb_spec in E; subst. split; [discriminate | intros H; exfalso; auto].
    + rewrite IH. split; intros H.
      * intros [C|C]; [subst; rewrite eqb_refl' in E; discriminate | auto].
      * intros C; apply H; right; exact C.
Qed.

Lemma dict_get_Some_In (k : K) (v : V) (d : Dict K V) :
  dict_get eqb k d = Some v -> In (k, v) d.
Proof.
  induction d as [|[k' v'] d IH]; simpl; [discriminate|].
  destruct (eqb k k') eqn:E.
  - apply eqb_spec in E; subst. intros H; inversion H; subst; left; reflexivity.
  - intros H; right; apply IH; exact H.
Qed.

Lemma dict_get_In_keys (k : K) (v : V) (d : Dict K V) :
  dict_get eqb k d = Some v -> In k (keys d).
Proof.
  intros H. apply dict_get_Some_In in H.
  apply (in_map fst) in H. exact H.
Qed.

Lemma In_dict_get (k : K) (v : V) (d : Dict K V) :
  NoDup (keys d) -> In (k, v) d -> dict_get eqb k d = Some v.
Proof.
  induction d as [|[k' v'] d IH]; simpl; intros Hnd Hin; [contradiction|].
  inversion Hnd as [|? ? Hni Hnd']; subst.
  destruct Hin as [Heq|Hin].
  - inversion Heq; subst. rewrite eqb_refl'; reflexivity.
  - destruct (eqb k k') eqn:E.
    + apply eqb_spec in E; subst. exfalso; apply Hni.
      apply (in_map fst) in Hin; exact Hin.
    + apply IH; assumption.
Qed.

Lemma keys_dict_set (k : K) (v : V) (d : Dict K V) :
  keys (dict_set eqb k v d)
  = if dict_mem eqb k d then keys d else keys d ++ [k].
Proof.
  unfold dict_mem.
  induction d as [|[k' v'] d IH]; simpl; [reflexivity|].
  destruct (eqb k k') eqn:E; simpl; [reflexivity|].
  rewrite IH. destruct (dict_get eqb k d); reflexivity.
Qed.

Lemma dict_mem_true (k : K) (d : Dict K V) :
  dict_mem eqb k d = true <-> In k (keys d).
Proof.
  unfold dict_mem. destruct (dict_get eqb k d) eqn:E.
  - split; [intros _; eapply dict_get_In_keys; eauto | reflexivity].
  - apply dict_get_None in E. split; [discriminate | contradiction].
Qed.

Lemma NoDup_keys_dict_set (k : K) (v : V) (d : Dict K V) :
  NoDup (keys d) -> NoDup (keys (dict_set eqb k v d)).
Proof.
  intros Hnd. rewrite keys_dict_set.
  destruct (dict_mem eqb k d) eqn:E; [exact Hnd|].
  apply NoDup_app; [exact Hnd | repeat constructor; simpl; tauto |].
  intros x Hx [Hk|[]]; subst x.
  apply dict_mem_true in Hx; congruence.
Qed.

Lemma In_keys_dict_set (k k0 : K) (v : V) (d : Dict K V) :
  In k0 (keys (dict_set eqb k v d)) <-> In k0 (keys d) \/ k0 = k.
Proof.
  rewrite keys_dict_set.
  destruct (dict_mem eqb k d) eqn:E.
  - apply dict_mem_true in E. split; [tauto | intros [H|H]; subst; auto].
  - rewrite in_app_iff; simpl. split; intros [H|H]; auto.
    + destruct H as [H|[]]; auto.
Qed.

End DictFacts.

(** ** Reciprocal rank fusion *)

Lemma rrf_inv_ext (st : RRFState) (acc acc' : string -> Q)
  (seen seen' : string -> Prop) :
  (forall t, acc t == acc' t) -> (forall t, seen t <-> seen' t) ->
  rrf_inv st acc seen -> rrf_inv st acc' seen'.
Proof.
  intros Ha Hs [H1 H2 H3 H4 H5 H6]; constructor; auto.
  - intros t; rewrite H3; apply Hs.
  - intros t v Hg; rewrite <- Ha; eauto.
  - intros t Hn; rewrite <- Ha; apply H5; rewrite Hs; exact Hn.
Qed.

Lemma rrf_inv_init : rrf_inv ([], []) (fun _ => 0) (fun _ => False).
Proof.
  constructor; simpl; try tauto; try discriminate.
  - constructor.
  - intros; reflexivity.
Qed.

Lemma rrf_step_inv (rank : nat) (n : NodeWithScore) (st : RRFState)
  (acc : string -> Q) (seen : string -> Prop) :
  rrf_inv st acc seen ->
  rrf_inv (rrf_step rank n st)
          (fun t => acc t + (if String.eqb t (content n)
                             then reciprocal rank else 0))
          (fun t => seen t \/ t = content n).
Proof.
  destruct st as [fused t2n]; intros [H1 H2 H3 H4 H5 H6]; simpl in *.
  unfold rrf_step; cbv zeta.
  set (c := content n).
  set (fused' := if dict_mem String.eqb c fused then fused
                 else dict_set String.eqb c 0 fused).
  assert (Hget : exists v0,
             dict_get String.eqb c fused' = Some v0 /\ v0 == acc c).
  { unfold fused', dict_mem.
    destruct (dict_get String.eqb c fused) as [v|] eqn:E.
    - exists v; split; [exact E | eauto].
    - exists 0; split; [apply dict_get_set_same, String.eqb_eq|].
      symmetry; apply H5. rewrite <- H3.
      apply (dict_get_None String.eqb String.eqb_eq); exact E. }
  destruct Hget as [v0 [Hv0 Hacc]].
  rewrite Hv0.
  assert (Hkeys : keys (dict_set String.eqb c (v0 + reciprocal rank) fused')
                  = keys (dict_set String.eqb c n t2n)).
  { assert (Hm : dict_mem String.eqb c t2n = dict_mem String.eqb c fused).
    { apply eq_true_iff_eq.
      rewrite !(dict_mem_true String.eqb String.eqb_eq), H1; tauto. }
    rewrite !(keys_dict_set String.eqb), Hm.
    unfold fused'.
    destruct (dict_mem String.eqb c fused) eqn:E.
    - rewrite E; exact H1.
    - unfold dict_mem; rewrite (dict_get_set_same String.eqb String.eqb_eq).
      rewrite (keys_dict_set String.eqb), E, H1; reflexivity. }
  assert (Hother : forall t, t <> c ->
             dict_get String.eqb t fused' = dict_get String.eqb t fused).
  { intros t Hne. unfold fused'.
    destruct (dict_mem String.eqb c fused); [reflexivity|].
    apply (dict_get_set_other String.eqb String.eqb_eq); exact Hne. }
  clearbody fused'.
  constructor; cbn [fst snd].
  - exact Hkeys.
  - rewrite Hkeys.
    apply (NoDup_keys_dict_set String.eqb String.eqb_eq).
    rewrite <- H1; exact H2.
  - intros t. rewrite Hkeys, (In_keys_dict_set String.eqb String.eqb_eq), <- H1, H3.
    tauto.
  - intros t v. destruct (String.eqb t c) eqn:E.
    + apply String.eqb_eq in E; subst t.
      rewrite (dict_get_set_same String.eqb String.eqb_eq).
      intros Hv; inversion Hv; subst. rewrite Hacc; reflexivity.
    + assert (Hne : t <> c) by (intros C; subst; rewrite String.eqb_refl in E; discriminate).
      rewrite (dict_get_set_other String.eqb String.eqb_eq) by exact Hne.
      rewrite (Hother t Hne).
      intros Hv'. rewrite (H4 _ _ Hv'). ring.
  - intros t Hn. destruct (String.eqb t c) eqn:E.
    + apply String.eqb_eq in E; tauto.
    + rewrite H5 by tauto. ring.
  - intros t m. destruct (String.eqb t c) eqn:E.
    + apply String.eqb_eq in E; subst t.
      rewrite (dict_get_set_same String.eqb String.eqb_eq).
      intros Hv; inversion Hv; subst; reflexivity.
    + assert (Hne : t <> c) by (intros C; subst; rewrite String.eqb_refl in E; discriminate).
      rewrite (dict_get_set_other String.eqb String.eqb_eq) by exact Hne.
      apply H6.
Qed.

Lemma rrf_inner_inv (l : list NodeWithScore) :
  forall (rank : nat) (st : RRFState) (acc : string -> Q) (seen : string -> Prop),
  rrf_inv st acc seen ->
  rrf_inv (rrf_inner rank l st)
          (fun t => acc t + rr_contrib t rank l)
          (fun t => seen t \/ In t (map content l)).
Proof.
  induction l as [|n l IH]; intros rank st acc seen Hinv; simpl.
  - eapply rrf_inv_ext; [| |exact Hinv]; intros t; [ring | tauto].
  - eapply rrf_inv_ext; [| |apply IH, rrf_step_inv, Hinv]; intros t; simpl.
    + ring.
    + intuition auto.
Qed.

Lemma rrf_outer_inv (ls : list (list NodeWithScore)) :
  forall (st : RRFState) (acc : string -> Q) (seen : string -> Prop),
  rrf_inv st acc seen ->
  rrf_inv (rrf_outer ls st)
          (fun t => acc t + rr_total t ls)
          (fun t => seen t \/ exists l, In l ls /\ In t (map content l)).
Proof.
  induction ls as [|l ls IH]; intros st acc seen Hinv; simpl.
  - eapply rrf_inv_ext; [| |exact Hinv]; intros t; [ring|].
    split; [auto | intros [H|[l [[] _]]]; exact H].
  - eapply rrf_inv_ext; [| |apply IH, rrf_inner_inv, Hinv]; intros t; simpl.
    + ring.
    + assert (Hs : In t (map content (sort_by_score_or_zero l))
                   <-> In t (map content l)).
      { unfold sort_by_score_or_zero.
        split; apply Permutation_in, Permutation_map;
          [apply sorted_desc_perm | apply Permutation_sym, sorted_desc_perm]. }
      rewrite Hs. split.
      * intros [[H|H]|[l' [H1 H2]]]; eauto.
      * intros [H|[l' [[H1|H1] H2]]]; subst; eauto.
Qed.

Lemma rrf_adjust_all (t2n : TextDict NodeWithScore) (items : list (string * Q)) :
  (forall it, In it items -> In (fst it) (keys t2n)) ->
  (forall t n, dict_get String.eqb t t2n = Some n -> content n = t) ->
  exists out,
    map_res (rrf_adjust t2n) items = Ok out
    /\ map content out = map fst items
    /\ map score out = map (fun it => Some (snd it)) items.
Proof.
  intros Hin Hnode.
  set (g := fun it : string * Q =>
              set_score (match dict_get String.eqb (fst it) t2n with
                         | Some n => n
                         | None => text_node "" None
                         end) (Some (snd it))).
  exists (map g items). split; [|split].
  - apply map_res_total. intros it Hit. unfold rrf_adjust, dict_lookup, g.
    destruct (dict_get String.eqb (fst it) t2n) eqn:E; [reflexivity|].
    apply (dict_get_None String.eqb String.eqb_eq) in E.
    exfalso; apply E, Hin, Hit.
  - rewrite map_map. apply map_ext_in. intros it Hit. unfold g.
    destruct (dict_get String.eqb (fst it) t2n) eqn:E.
    + apply Hnode in E. exact E.
    + apply (dict_get_None String.eqb String.eqb_eq) in E.
      exfalso; apply E, Hin, Hit.
  - rewrite map_map. reflexivity.
Qed.

Lemma score_key_of_score (out : list NodeWithScore) (qs : list Q) :
  map score out = map (@Some Q) qs -> map score_key out = qs.
Proof.
  revert qs; induction out as [|n out IH]; intros [|q qs] H;
    simpl in *; try discriminate; [reflexivity|].
  inversion H as [[Hs Ht]]. unfold score_key at 1. rewrite Hs.
  f_equal. apply IH; exact Ht.
Qed.

(** C1, as amended: reciprocal-rank fusion returns one node per distinct
    content string found in the source lists; its fused score is the sum of
    [1 / (rank + 60)] over every node of that content in every source list (a
    list holding the content several times contributes several terms), where
    rank is the node's position once its list is sorted by score descending,
    stably, an unset score counting as 0; the output is sorted by fused
    score descending.  On the end-to-end scenario the first of the two
    nodes kept by [top_k = 2] has content "b". *)
Theorem reciprocal_rank_fusion_sums_occurrences (results : Results) :
  (exists out,
      _reciprocal_rerank_fusion results = Ok out
      /\ NoDup (map content out)
      /\ (forall t, In t (map content out) <->
                    exists l, In l (values results) /\ In t (map content l))
      /\ (forall n, In n out ->
            exists s, score n = Some s
                      /\ s == rr_total (content n) (values results))
      /\ StronglySorted (desc_by score_key) out)
  /\ (forall l,
        Permutation (sort_by_score_or_zero l) l
        /\ StronglySorted (desc_by (fun x => score_or 0 (score x)))
                          (sort_by_score_or_zero l)
        /\ forall q,
            filter (fun x => Qeq_bool (score_or 0 (score x)) q)
                   (sort_by_score_or_zero l)
            = filter (fun x => Qeq_bool (score_or 0 (score x)) q) l)
  /\ (exists out,
        _reciprocal_rerank_fusion scenario = Ok out
        /\ map content (py_slice_to 2 out) = ["b"; "a"]%string).
Proof.
  split; [|split].
  - unfold _reciprocal_rerank_fusion.
    pose proof (rrf_outer_inv (values results) rrf_inv_init) as Hinv.
    destruct (rrf_outer (values results) ([], [])) as [fused t2n].
    destruct Hinv as [H1 H2 H3 H4 H5 H6]; cbn [fst snd] in *.
    assert (Hperm : Permutation (sorted_desc snd fused) fused)
      by apply sorted_desc_perm.
    destruct (@rrf_adjust_all t2n (sorted_desc snd fused)) as [out [Ho [Hc Hs]]].
    { intros it Hit. rewrite <- H1. apply in_map.
      eapply Permutation_in; [exact Hperm | exact Hit]. }
    { exact H6. }
    exists out. split; [exact Ho|]. split; [|split; [|split]].
    + rewrite Hc. eapply Permutation_NoDup; [|exact H2].
      apply Permutation_sym, Permutation_map, Hperm.
    + intros t. rewrite Hc.
      assert (Hk : In t (map fst (sorted_desc snd fused)) <-> In t (keys fused)).
      { split; apply Permutation_in, Permutation_map;
          [exact Hperm | apply Permutation_sym, Hperm]. }
      rewrite Hk, H3. split; [intros [[]|H]; exact H | auto].
    + intros n Hn.
      destruct (In_nth_error _ _ Hn) as [i Hi].
      assert (Hci : nth_error (map content out) i = Some (content n))
        by (rewrite nth_error_map, Hi; reflexivity).
      assert (Hsi : nth_error (map score out) i = Some (score n))
        by (rewrite nth_error_map, Hi; reflexivity).
      rewrite Hc, nth_error_map in Hci. rewrite Hs, nth_error_map in Hsi.
      destruct (nth_error (sorted_desc snd fused) i) as [[t v]|] eqn:E;
        simpl in *; [|discriminate].
      inversion Hci; inversion Hsi; subst.
      exists v. split; [reflexivity|].
      apply nth_error_In in E.
      assert (Hg : dict_get String.eqb (content n) fused = Some v).
      { apply (In_dict_get String.eqb String.eqb_eq); [exact H2|].
        eapply Permutation_in; [exact Hperm | exact E]. }
      rewrite (H4 _ _ Hg). ring.
    + apply (proj2 (StronglySorted_map score_key out)).
      rewrite (@score_key_of_score out (map snd (sorted_desc snd fused))).
      * apply (proj1 (StronglySorted_map snd (sorted_desc snd fused))).
        apply sorted_desc_sorted.
      * rewrite Hs, map_map. reflexivity.
  - intros l. unfold sort_by_score_or_zero. split; [|split].
    + apply sorted_desc_perm.
    + apply sorted_desc_sorted.
    + intros q.
      apply (sorted_desc_stable (fun x => score_or 0 (score x))).
  - eexists. split; [vm_compute; reflexivity | reflexivity].
Qed.

(** C1 as worded fails on a source list that holds one content twice: the
    fused score is [1/60 + 1/61], which is neither the one term per source
    list of the wording nor [1 / (rank + 60)] for any rank at all. *)
Lemma reciprocal_rank_one_term_per_list_fails :
  exists n s,
    _reciprocal_rerank_fusion twice_in_one_list = Ok [n]
    /\ content n = "x"%string
    /\ score n = Some s
    /\ s == 1 / 60 + 1 / 61
    /\ ~ s == rr_one_term_per_list "x" (values twice_in_one_list)
    /\ forall rank : nat, ~ s == reciprocal rank.
Proof.
  eexists. eexists. split; [vm_compute; reflexivity|].
  split; [reflexivity|]. split; [reflexivity|].
  split; [reflexivity|]. split; [vm_compute; discriminate|].
  intros rank. unfold reciprocal, rrf_k. intros H.
  assert (Hpos : 0 <= inject_Z (Z.of_nat rank)).
  { rewrite <- (Zle_Qle 0). apply Nat2Z.is_nonneg. }
  set (r := inject_Z (Z.of_nat rank)) in *.
  assert (Hle : 1 / (r + 60) <= 1 / 60).
  { apply Qle_shift_div_r; [lra|].
    unfold Qdiv. rewrite Qmult_1_l.
    setoid_replace (/ 60 * (r + 60)) with (1 + r / 60) by (field).
    assert (0 <= r / 60) by (apply Qle_shift_div_l; lra). lra. }
  rewrite <- H in Hle. vm_compute in Hle. apply Hle. reflexivity.
Qed.

(** ** Node partitioner *)

Lemma partition_loop (urls : list (option string)) (nodes : list NodeWithScore) :
  forall p,
  fold_left (partition_step urls) nodes p
  = {| image_nodes := image_nodes p ++ filter is_image nodes;
       text_image_nodes :=
         text_image_nodes p ++ flat_map (promoted urls) (filter is_text nodes);
       text_nodes := text_nodes p ++ filter is_text nodes |}.
Proof.
  induction nodes as [|n nodes IH]; intros p; simpl.
  - rewrite !app_nil_r. destruct p; reflexivity.
  - rewrite IH. unfold partition_step, is_text.
    destruct (is_image n); simpl; rewrite <- ?app_assoc; reflexivity.
Qed.

Lemma sort_by_score_scored (l : list NodeWithScore) :
  Forall (fun n => score n <> None) l ->
  sort_by_score l = Ok (sorted_desc score_key l).
Proof.
  intros H. unfold sort_by_score.
  replace (existsb (fun n => is_none (score n)) l) with false;
    [rewrite andb_false_r; reflexivity|].
  symmetry. induction H as [|n l Hn Hl IH]; simpl; [reflexivity|].
  rewrite IH. destruct (score n); [reflexivity | contradiction].
Qed.

Lemma discount_scored (l : list NodeWithScore) :
  Forall (fun n => score n <> None) l ->
  map_res discount l
  = Ok (map (fun n => set_score n (Some (score_key n * TEXT_IMAGE_WEIGHT))) l).
Proof.
  intros H. apply map_res_total. intros n Hn.
  rewrite Forall_forall in H. specialize (H n Hn).
  unfold discount, score_key. destruct (score n); [reflexivity | contradiction].
Qed.

Lemma scaled_sorted (w : Q) (qs : list Q) :
  0 <= w ->
  StronglySorted (fun x y : Q => y <= x) qs ->
  StronglySorted (fun x y : Q => y <= x) (map (fun q => q * w) qs).
Proof.
  intros Hw. induction 1 as [|q qs Hs IH Hq]; simpl; constructor; [exact IH|].
  rewrite Forall_map. eapply Forall_impl; [|exact Hq].
  intros a Ha. apply Qmult_le_compat_r; assumption.
Qed.

(** C2, as amended: when every input node has a score, [partition] returns
    the text nodes in input order and the image list cut to at most 5 entries
    of: the image nodes sorted by score descending, followed by the
    synthesized ones sorted by score descending.  There is one synthesized
    image node for each occurrence of an image reference in a text node's
    metadata that no image node of the input carries (a reference named
    twice yields two nodes), and its score is 0.5 times the score of that
    text node. *)
Theorem partition_promotes_every_reference (nodes : list NodeWithScore) :
  Forall (fun n => score n <> None) nodes ->
  exists natives synthesized,
    _get_image_and_text_nodes nodes
    = Ok (firstn IMAGE_MAX_PIECES (natives ++ synthesized),
          filter is_text nodes)
    /\ Permutation natives (filter is_image nodes)
    /\ StronglySorted (desc_by score_key) natives
    /\ Permutation synthesized (expected_synthesized nodes)
    /\ StronglySorted (desc_by score_key) synthesized
    /\ (List.length (firstn IMAGE_MAX_PIECES (natives ++ synthesized)) <= 5)%nat.
Proof.
  intros Hsc.
  set (urls := collect_image_urls nodes).
  set (raw := flat_map (promoted urls) (filter is_text nodes)).
  assert (Hnat : Forall (fun n => score n <> None) (filter is_image nodes)).
  { rewrite Forall_forall in *. intros n Hn.
    apply filter_In in Hn. apply Hsc, Hn. }
  assert (Hraw : Forall (fun n => score n <> None) raw).
  { rewrite Forall_forall in *. intros n Hn. unfold raw in Hn.
    apply in_flat_map in Hn. destruct Hn as [o [Ho Hn]].
    unfold promoted in Hn. apply in_map_iff in Hn.
    destruct Hn as [u [Hu _]]. subst n. simpl.
    apply filter_In in Ho. apply Hsc, Ho. }
  exists (sorted_desc score_key (filter is_image nodes)).
  exists (map (fun n => set_score n (Some (score_key n * TEXT_IMAGE_WEIGHT)))
              (sorted_desc score_key raw)).
  split; [|split; [|split; [|split; [|split]]]].
  - unfold _get_image_and_text_nodes. fold urls.
    rewrite partition_loop. cbn [image_nodes text_image_nodes text_nodes app].
    fold raw. rewrite (sort_by_score_scored Hnat). cbn [bind].
    rewrite (sort_by_score_scored Hraw). cbn [bind].
    rewrite discount_scored; [reflexivity|].
    eapply Permutation_Forall; [apply Permutation_sym, sorted_desc_perm|].
    exact Hraw.
  - apply sorted_desc_perm.
  - apply sorted_desc_sorted.
  - eapply Permutation_trans; [apply Permutation_map, sorted_desc_perm|].
    unfold raw, expected_synthesized.
    rewrite flat_map_concat_map, concat_map, map_map, <- flat_map_concat_map.
    apply Permutation_refl'. apply flat_map_ext. intros o.
    unfold promoted, references_to_promote. fold urls.
    rewrite map_map. reflexivity.
  - apply (proj2 (StronglySorted_map score_key _)).
    rewrite map_map. cbn [score_key set_score score].
    rewrite <- (map_map score_key (fun q => q * TEXT_IMAGE_WEIGHT)).
    apply scaled_sorted; [unfold TEXT_IMAGE_WEIGHT; lra|].
    apply (proj1 (StronglySorted_map score_key _)).
    apply sorted_desc_sorted.
  - rewrite length_firstn. apply Nat.le_min_l.
Qed.

Lemma partition_promotes_every_reference_witness :
  exists natives synthesized,
    _get_image_and_text_nodes mixed_nodes
    = Ok (firstn IMAGE_MAX_PIECES (natives ++ synthesized),
          filter is_text mixed_nodes)
    /\ Permutation natives (filter is_image mixed_nodes)
    /\ StronglySorted (desc_by score_key) natives
    /\ Permutation synthesized (expected_synthesized mixed_nodes)
    /\ StronglySorted (desc_by score_key) synthesized
    /\ (List.length (firstn IMAGE_MAX_PIECES (natives ++ synthesized)) <= 5)%nat.
Proof.
  apply (partition_promotes_every_reference (nodes := mixed_nodes)).
  repeat constructor; simpl; discriminate.
Defined.

(** C2 as worded fails on a text node whose metadata names one image twice:
    two image nodes are synthesized for the one unique reference. *)
Lemma partition_repeated_reference_counterexample :
  exists a b,
    _get_image_and_text_nodes repeated_reference
    = Ok ([a; b], repeated_reference)
    /\ node_class (node a) = ImageNode (Some "u"%string)
    /\ node_class (node b) = ImageNode (Some "u"%string)
    /\ List.length (nodup string_dec
                      (references_to_promote repeated_reference
                         (text_with_images "t" ["u"; "u"]%string (Some (8 # 10)))))
       = 1%nat.
Proof.
  eexists. eexists. split; [vm_compute; reflexivity|].
  split; [reflexivity|]. split; [reflexivity|]. vm_compute. reflexivity.
Qed.

(** ** Unset scores *)

Lemma query_tuple_eqb_eq (a b : QueryTuple) :
  query_tuple_eqb a b = true <-> a = b.
Proof.
  destruct a as [q i], b as [q' i']; unfold query_tuple_eqb; simpl.
  rewrite andb_true_iff, String.eqb_eq, Nat.eqb_eq.
  split; [intros [-> ->]; reflexivity | intros H; inversion H; auto].
Qed.

(** C3: a node without a score makes relative-score fusion raise, and makes
    simple fusion raise once its content is met a second time; reciprocal
    rank fusion, on the same inputs, ranks the unset score as 0 and
    returns. *)
Theorem unset_score_raises :
  (forall pow_half self key t,
      _relative_score_fusion pow_half self [(key, [text_node t None])] false
      = Err TypeError)
  /\ (forall key1 key2 t s,
        _simple_fusion [(key1, [text_node t None]); (key2, [text_node t s])]
        = Err TypeError)
  /\ _relative_score_fusion sqrt_floor (two_sources RELATIVE_SCORE 2)
                            unset_score false = Err TypeError
  /\ _relative_score_fusion sqrt_floor (two_sources DIST_BASED_SCORE 2)
                            unset_score true = Err TypeError
  /\ _simple_fusion unset_score_twice = Err TypeError
  /\ is_ok (_reciprocal_rerank_fusion unset_score) = true
  /\ is_ok (_reciprocal_rerank_fusion unset_score_twice) = true.
Proof.
  split; [|split; [|repeat split; vm_compute; reflexivity]].
  - intros. unfold _relative_score_fusion, min_max_scores. simpl.
    unfold rescale_all, rescale, dict_lookup. simpl.
    rewrite (proj2 (query_tuple_eqb_eq key key) eq_refl). reflexivity.
  - intros. unfold _simple_fusion. simpl.
    unfold simple_step. simpl.
    unfold content, get_content. simpl. rewrite String.eqb_refl.
    destruct s; reflexivity.
Qed.

(** ** Recursive expansion *)

(** C7: a node that references a nested object and whose score is set to
    0.0 is expanded with the propagated score 1.0, not with its own score. *)
Theorem zero_score_propagates_as_one :
  (forall self query_str index_id o txt md fname acc,
      recursive_step self query_str
        {| node := {| node_class := IndexNode index_id (Some o); text := txt;
                      md_image_url := md; md_file_name := fname |};
           score := Some 0 |} acc
      = let* sub := _aretrieve_from_object self o query_str 1 in
        Ok (acc ++ sub))
  /\ _ahandle_recursive_retrieval (two_sources NO_FUSION 2) "q"
       [text_node "plain" (Some (3 # 10)); zero_scored_index_node]
     = Ok [text_node "plain" (Some (3 # 10)); text_node "nested" (Some 1)].
Proof.
  split; [intros; reflexivity | vm_compute; reflexivity].
Qed.

(** ** Synthesizer *)

Lemma text_llm_chain_raises (llm : option LLM) (prompt : string) :
  (let* m := getattr (py_object llm) "acomplete" in
   let* f := getattr m "stream_complete" in
   call_stream f prompt) = Err AttributeError.
Proof. destruct llm; reflexivity. Qed.

Section SynthesizerFacts.
Variable DEFAULT_TEXT_QA_PROMPT : Template.
Variable get_content_llm : NodeWithScore -> string.
Variable default_openai_multi_modal : Res MultiModalLLM.

Lemma engine_init_built (need_image : bool) (mm : MultiModalLLM)
  (llm : option LLM) (tq iq : option Template) (stream : bool) :
  engine_init DEFAULT_TEXT_QA_PROMPT default_openai_multi_modal need_image
              (Some mm) llm tq iq stream
  = Ok (built DEFAULT_TEXT_QA_PROMPT need_image mm llm tq iq).
Proof. reflexivity. Qed.

Lemma synthesize_text_only_not_ok (e : MySimpleMultiModalQueryEngine)
  (query_str : string) (nodes : list NodeWithScore) :
  _stream e = true -> _need_image e = false ->
  is_ok (synthesize get_content_llm e query_str nodes) = false.
Proof.
  intros Hs Hn. unfold synthesize.
  destruct (_get_image_and_text_nodes nodes) as [[imgs txts]|]; [|reflexivity].
  cbn [bind]. destruct (join_image_urls imgs); [|reflexivity].
  cbn [bind]. rewrite Hs. unfold synthesize_stream. rewrite Hn.
  rewrite text_llm_chain_raises. reflexivity.
Qed.

(** C4: in the text-only streaming branch [synthesize] never returns: the
    call chain [self._llm.acomplete.stream_complete] raises, whatever text
    LLM the engine was built with, while [asynthesize] on the same engine and
    input streams the text LLM's deltas. *)
Theorem synthesize_text_only_streaming_raises :
  (forall multi_modal_llm llm tq iq stream query_str nodes,
      match engine_init DEFAULT_TEXT_QA_PROMPT default_openai_multi_modal
                        false multi_modal_llm llm tq iq stream with
      | Ok e => is_ok (synthesize get_content_llm e query_str nodes) = false
      | Err _ => True
      end)
  /\ (forall mm llm tq iq query_str nodes imgs txts s,
        _get_image_and_text_nodes nodes = Ok (imgs, txts) ->
        join_image_urls imgs = Ok s ->
        synthesize get_content_llm
          (built DEFAULT_TEXT_QA_PROMPT false mm llm tq iq) query_str nodes
        = Err AttributeError)
  /\ synthesize get_content_llm
       (built DEFAULT_TEXT_QA_PROMPT false echo_multi_modal_llm (Some echo_llm)
              (Some plain_template) None)
       "q" [text_node "ctx" (Some (9 # 10))]
     = Err AttributeError
  /\ asynthesize content
       (built DEFAULT_TEXT_QA_PROMPT false echo_multi_modal_llm (Some echo_llm)
              (Some plain_template) None)
       "q" [text_node "ctx" (Some (9 # 10))]
     = Ok (AsyncStreamingResponse (aget_token_gen (AsyncGen ["ctxq"%string]))
                                  [text_node "ctx" (Some (9 # 10))]).
Proof.
  split; [|split; [|split]].
  - intros multi_modal_llm llm tq iq stream query_str nodes.
    unfold engine_init.
    destruct (match multi_modal_llm with
              | Some m => Ok m
              | None => default_openai_multi_modal
              end) as [mm|err]; cbn [bind]; [|exact I].
    apply synthesize_text_only_not_ok; reflexivity.
  - intros mm llm tq iq query_str nodes imgs txts s Hp Hj.
    unfold synthesize. rewrite Hp. cbn [bind]. rewrite Hj. cbn [bind].
    cbn [built _stream]. unfold synthesize_stream. cbn [built _need_image _llm].
    rewrite text_llm_chain_raises. reflexivity.
  - reflexivity.
  - reflexivity.
Qed.

(** C10: whatever [stream] argument the constructor receives, the engine's
    [_stream] field is [True], so every call of the synchronous [synthesize]
    runs the streaming branch and never returns the batch [Response].  In the
    needs-image branch it returns a streaming response over the multi-modal
    client's stream with the source nodes attached, when the partitioner,
    the joining of the image urls and that client do not raise.  In the
    text-only branch it returns no streaming response object: the call chain
    [self._llm.acomplete.stream_complete] of line 215 raises
    [AttributeError] on every call, as on an engine built with
    [stream=False] and asked about one text node. *)
Theorem stream_flag_is_hardcoded (need_image : bool)
  (multi_modal_llm : option MultiModalLLM) (llm : option LLM)
  (tq iq : option Template) (stream : bool) :
  match engine_init DEFAULT_TEXT_QA_PROMPT default_openai_multi_modal
                    need_image multi_modal_llm llm tq iq stream with
  | Err _ => True
  | Ok e =>
      _stream e = true
      /\ (forall query_str nodes,
            synthesize get_content_llm e query_str nodes
            = let* (image_nodes, text_nodes) := _get_image_and_text_nodes nodes in
              let* images_str := join_image_urls image_nodes in
              synthesize_stream e query_str
                (with_image_list (text_context get_content_llm text_nodes)
                                 images_str)
                nodes image_nodes)
      /\ (forall query_str nodes r,
            synthesize get_content_llm e query_str nodes = Ok r ->
            is_streaming r = true)
      /\ (forall query_str nodes imgs txts s ds,
            need_image = true ->
            _get_image_and_text_nodes nodes = Ok (imgs, txts) ->
            join_image_urls imgs = Ok s ->
            mm_stream_complete (_multi_modal_llm e)
              (_image_qa_template e
                 (with_image_list
                    (with_image_list (text_context get_content_llm txts) s) s)
                 query_str)
              (map node imgs) = Ok ds ->
            synthesize get_content_llm e query_str nodes
            = Ok (AsyncStreamingResponse (aget_token_gen (SyncGen ds)) nodes))
      /\ (forall query_str nodes,
            need_image = false ->
            is_ok (synthesize get_content_llm e query_str nodes) = false)
      /\ (forall query_str nodes imgs txts s,
            need_image = false ->
            _get_image_and_text_nodes nodes = Ok (imgs, txts) ->
            join_image_urls imgs = Ok s ->
            synthesize get_content_llm e query_str nodes = Err AttributeError)
  end
  /\ (exists e,
        engine_init DEFAULT_TEXT_QA_PROMPT default_openai_multi_modal false
                    (Some echo_multi_modal_llm) (Some echo_llm) None None false
        = Ok e
        /\ _stream e = true
        /\ synthesize get_content_llm e "q" [text_node "ctx" (Some (9 # 10))]
           = Err AttributeError).
Proof.
  split.
  - unfold engine_init.
    destruct (match multi_modal_llm with
              | Some m => Ok m
              | None => default_openai_multi_modal
              end) as [mm|err]; cbn [bind]; [|exact I].
    split; [reflexivity|]. split; [|split; [|split; [|split]]].
    + intros query_str nodes. unfold synthesize. cbn [_stream].
      destruct (_get_image_and_text_nodes nodes) as [[imgs txts]|]; reflexivity.
    + intros query_str nodes r. unfold synthesize. cbn [_stream].
      destruct (_get_image_and_text_nodes nodes) as [[imgs txts]|]; [|discriminate].
      cbn [bind]. destruct (join_image_urls imgs); [|discriminate].
      cbn [bind]. unfold synthesize_stream.
      match goal with
      | |- bind ?m _ = _ -> _ => destruct m; cbn [bind]
      end; [|discriminate].
      intros H; inversion H; reflexivity.
    + intros query_str nodes imgs txts s ds Hn Hp Hj Hm. subst need_image.
      unfold synthesize. rewrite Hp. cbn [bind]. rewrite Hj. cbn [bind].
      cbn [_stream]. unfold synthesize_stream. cbn [_need_image].
      rewrite Hj. cbn [bind]. cbn [_multi_modal_llm _image_qa_template] in *.
      rewrite Hm. reflexivity.
    + intros query_str nodes Hn. subst need_image.
      apply synthesize_text_only_not_ok; reflexivity.
    + intros query_str nodes imgs txts s Hn Hp Hj. subst need_image.
      unfold synthesize. rewrite Hp. cbn [bind]. rewrite Hj. cbn [bind].
      cbn [_stream]. unfold synthesize_stream. cbn [_need_image _llm].
      rewrite text_llm_chain_raises. reflexivity.
  - eexists. split; [reflexivity|]. split; reflexivity.
Qed.

(** C8, as amended: construction succeeds with the text LLM unset; with
    the multi-modal client unset it builds the default OpenAI client and
    raises at construction time when that client cannot be imported or
    built.  A missing text LLM shows only at synthesis time, as an
    [AttributeError] of the text-only branch; the needs-image branch does not
    look at the text LLM; and an engine with a text LLM serves text-only
    queries through [asynthesize]. *)
Theorem clients_checked_at_construction_or_use (need_image : bool)
  (mm : MultiModalLLM) (llm : option LLM) (tq iq : option Template)
  (stream : bool) :
  engine_init DEFAULT_TEXT_QA_PROMPT default_openai_multi_modal need_image
              (Some mm) llm tq iq stream
  = Ok (built DEFAULT_TEXT_QA_PROMPT need_image mm llm tq iq)
  /\ engine_init DEFAULT_TEXT_QA_PROMPT default_openai_multi_modal need_image
                 None llm tq iq stream
     = match default_openai_multi_modal with
       | Ok d => Ok (built DEFAULT_TEXT_QA_PROMPT need_image d llm tq iq)
       | Err err => Err err
       end
  /\ (forall query_str nodes,
        asynthesize get_content_llm
          (built DEFAULT_TEXT_QA_PROMPT false mm None tq iq) query_str nodes
        = let* _ := _get_image_and_text_nodes nodes in Err AttributeError)
  /\ (forall query_str nodes,
        asynthesize get_content_llm
          (built DEFAULT_TEXT_QA_PROMPT true mm None tq iq) query_str nodes
        = asynthesize get_content_llm
            (built DEFAULT_TEXT_QA_PROMPT true mm llm tq iq) query_str nodes
        /\ synthesize get_content_llm
             (built DEFAULT_TEXT_QA_PROMPT true mm None tq iq) query_str nodes
           = synthesize get_content_llm
               (built DEFAULT_TEXT_QA_PROMPT true mm llm tq iq) query_str nodes)
  /\ (forall l query_str nodes,
        asynthesize get_content_llm
          (built DEFAULT_TEXT_QA_PROMPT false mm (Some l) tq iq) query_str nodes
        = let* (image_nodes, text_nodes) := _get_image_and_text_nodes nodes in
          let* ds := astream_complete l
                       (_text_qa_template
                          (built DEFAULT_TEXT_QA_PROMPT false mm (Some l) tq iq)
                          (text_context get_content_llm text_nodes) query_str) in
          Ok (AsyncStreamingResponse (aget_token_gen (AsyncGen ds)) nodes)).
Proof.
  split; [reflexivity|]. split; [|split; [|split]].
  - unfold engine_init. destruct default_openai_multi_modal; reflexivity.
  - intros query_str nodes. unfold asynthesize.
    destruct (_get_image_and_text_nodes nodes) as [[imgs txts]|]; reflexivity.
  - intros query_str nodes. split; reflexivity.
  - intros l query_str nodes. unfold asynthesize.
    destruct (_get_image_and_text_nodes nodes) as [[imgs txts]|]; [|reflexivity].
    cbn [bind built _stream]. unfold asynthesize_stream.
    cbn [_need_image _llm py_object getattr LLM_METHODS existsb].
    cbn. destruct (astream_complete l _); reflexivity.
Qed.

End SynthesizerFacts.

Lemma stream_flag_is_hardcoded_witness :
  (exists ds,
      synthesize content
        (built plain_template true echo_multi_modal_llm None None None)
        "q" [image_node "i1" (Some (9 # 10))]
      = Ok (AsyncStreamingResponse (aget_token_gen (SyncGen ds))
                                   [image_node "i1" (Some (9 # 10))]))
  /\ synthesize content
       (built plain_template false echo_multi_modal_llm (Some echo_llm) None None)
       "q" [text_node "ctx" (Some (9 # 10))]
     = Err AttributeError.
Proof.
  split.
  - pose proof (@stream_flag_is_hardcoded plain_template content
                  (Err ImportError) true (Some echo_multi_modal_llm)
                  None None None false) as H.
    cbn [engine_init bind] in H.
    destruct H as [[_ [_ [_ [H _]]]] _].
    eexists. eapply H; reflexivity.
  - pose proof (@stream_flag_is_hardcoded plain_template content
                  (Err ImportError) false (Some echo_multi_modal_llm)
                  (Some echo_llm) None None false) as H.
    cbn [engine_init bind] in H.
    destruct H as [[_ [_ [_ [_ [_ H]]]]] _].
    eapply H; reflexivity.
Defined.

(** C8 as worded fails: with only a text LLM given and the default
    multi-modal client not importable, construction itself raises. *)
Lemma construction_without_multi_modal_client_raises :
  engine_init plain_template (Err ImportError) false None (Some echo_llm)
              None None false
  = Err ImportError.
Proof. reflexivity. Qed.

(** ** Retriever weights *)

Lemma fold_left_Qplus_shift (l : list Q) (a : Q) :
  fold_left Qplus l a == a + fold_left Qplus l 0.
Proof.
  revert a; induction l as [|x l IH]; intros a; simpl; [ring|].
  rewrite (IH (a + x)), (IH (0 + x)). ring.
Qed.

Lemma sum_scaled (t : Q) (l : list Q) :
  ~ t == 0 ->
  fold_left Qplus (map (fun w => w / t) l) 0 == fold_left Qplus l 0 / t.
Proof.
  intros Ht. induction l as [|x l IH]; simpl.
  - field; exact Ht.
  - rewrite (fold_left_Qplus_shift _ (0 + x / t)),
            (fold_left_Qplus_shift _ (0 + x)), IH.
    field; exact Ht.
Qed.

Lemma sum_repeat (x : Q) (n : nat) :
  fold_left Qplus (repeat x n) 0 == inject_Z (Z.of_nat n) * x.
Proof.
  induction n as [|n IH].
  - simpl. ring.
  - cbn [repeat fold_left].
    rewrite (fold_left_Qplus_shift _ (0 + x)), IH.
    rewrite Nat2Z.inj_succ. unfold Z.succ. rewrite inject_Z_plus. ring.
Qed.

Lemma sum_nonneg (l : list Q) :
  Forall (fun w => 0 <= w) l -> 0 <= fold_left Qplus l 0.
Proof.
  induction 1 as [|x l Hx _ IH]; simpl; [apply Qle_refl|].
  rewrite (fold_left_Qplus_shift _ (0 + x)). lra.
Qed.

Lemma sum_bounds_each (l : list Q) (w : Q) :
  Forall (fun w => 0 <= w) l -> In w l -> w <= fold_left Qplus l 0.
Proof.
  induction 1 as [|x l Hx Hl IH]; intros Hin; [contradiction|].
  simpl. rewrite (fold_left_Qplus_shift _ (0 + x)).
  pose proof (@sum_nonneg l Hl) as Hs.
  destruct Hin as [Heq|Hin]; [subst x; lra|].
  specialize (IH Hin). lra.
Qed.

(** C9, as amended: for non-negative weights whose sum is positive and of
    moderate size, and for the uniform default over a non-empty retriever
    list, construction stores one weight per input weight (per retriever),
    each between 0 and 1, and the stored weights sum to 1. *)
Theorem stored_weights_sum_to_one (n_retrievers : nat)
  (retriever_weights : option (list Q)) :
  well_scaled n_retrievers retriever_weights ->
  exists stored,
    init_retriever_weights n_retrievers retriever_weights = Ok stored
    /\ fold_left Qplus stored 0 == 1
    /\ Forall (fun w => 0 <= w /\ w <= 1) stored
    /\ List.length stored
       = match retriever_weights with
         | Some ws => List.length ws
         | None => n_retrievers
         end.
Proof.
  destruct retriever_weights as [ws|]; simpl.
  - intros [Hnn [Hpos Hmod]].
    assert (H : ~ fold_left Qplus ws 0 == 0) by lra.
    exists (map (fun w => w / fold_left Qplus ws 0) ws).
    split; [|split; [|split]].
    + apply map_res_total. intros w _.
      destruct (Qeq_bool (fold_left Qplus ws 0) 0) eqn:E; [|reflexivity].
      apply Qeq_bool_iff in E. contradiction.
    + rewrite sum_scaled by exact H. field; exact H.
    + rewrite Forall_map. rewrite Forall_forall. intros w Hw.
      pose proof (@sum_bounds_each ws w Hnn Hw) as Hle.
      rewrite Forall_forall in Hnn. specialize (Hnn w Hw).
      split; [apply Qle_shift_div_l; lra | apply Qle_shift_div_r; lra].
    + apply length_map.
  - intros H.
    assert (Hn : 0 < inject_Z (Z.of_nat n_retrievers)).
    { unfold Qlt. simpl. lia. }
    exists (repeat (1 / inject_Z (Z.of_nat n_retrievers)) n_retrievers).
    split; [|split; [|split]].
    + destruct n_retrievers; [contradiction | reflexivity].
    + rewrite sum_repeat. field. lra.
    + apply Forall_forall. intros w Hw. apply repeat_spec in Hw. subst w.
      assert (H1 : 1 <= inject_Z (Z.of_nat n_retrievers)).
      { unfold Qle. simpl. lia. }
      split; [apply Qle_shift_div_l; lra | apply Qle_shift_div_r; lra].
    + apply repeat_length.
Qed.

Lemma stored_weights_sum_to_one_witness :
  well_scaled 2 (Some [3; 1])
  /\ exists stored,
       init_retriever_weights 2 (Some [3; 1]) = Ok stored
       /\ fold_left Qplus stored 0 == 1
       /\ Forall (fun w => 0 <= w /\ w <= 1) stored
       /\ List.length stored = 2%nat.
Proof.
  assert (H : well_scaled 2 (Some [3; 1])).
  { simpl. split; [|split].
    - repeat constructor; discriminate.
    - reflexivity.
    - vm_compute. discriminate. }
  split; [exact H|].
  apply (@stored_weights_sum_to_one 2 (Some [3; 1]) H).
Defined.

(** C9 as worded fails.  A weight list summing to zero stores nothing:
    construction raises.  On binary64 floats the sum of two weights of 1e308
    overflows to [inf], so that both are stored as 0.0 and sum to 0; and with
    weights of both signs the sum can cancel to zero although the weights do
    not add up to zero, as for 1e16, 1.0, -1e16. *)
Lemma zero_sum_weights_counterexample :
  ~ (forall n_retrievers ws,
        exists stored,
          init_retriever_weights n_retrievers (Some ws) = Ok stored
          /\ fold_left Qplus stored 0 == 1)
  /\ init_retriever_weights 2 (Some [1; -1]) = Err ZeroDivisionError
  /\ float_init_retriever_weights [1e308; 1e308]%float = Ok [0; 0]%float
  /\ float_init_retriever_weights [1e16; 1; -1e16]%float
     = Err ZeroDivisionError.
Proof.
  split; [|split; [|split]]; try reflexivity.
  intros H. destruct (H 2%nat [1; -1]) as [stored [Hs _]].
  vm_compute in Hs. discriminate Hs.
Qed.

(** ** Relative score fusion *)

Lemma Qlt_bool_iff (x y : Q) : Qlt_bool x y = true <-> x < y.
Proof.
  unfold Qlt_bool. rewrite negb_true_iff. split; intros H.
  - apply Qnot_le_lt. intros C. apply Qle_bool_iff in C. congruence.
  - destruct (Qle_bool y x) eqn:E; [|reflexivity].
    apply Qle_bool_iff in E. exfalso. apply (Qlt_not_le _ _ H E).
Qed.

Lemma running_min (rest : list Q) :
  forall cur,
  exists m,
    for_each (fun item c => let* b := py_lt item c in
                            Ok (if b then item else c))
             (map (@Some Q) rest) (Some cur) = Ok (Some m)
    /\ m <= cur /\ Forall (fun q => m <= q) rest
    /\ (m = cur \/ In m rest).
Proof.
  induction rest as [|x rest IH]; intros cur; simpl.
  - exists cur. repeat split; auto. apply Qle_refl.
  - destruct (Qlt_bool x cur) eqn:E.
    + destruct (IH x) as [m [H1 [H2 [H3 H4]]]].
      apply Qlt_bool_iff in E.
      exists m. split; [exact H1|]. split; [lra|]. split.
      * constructor; [exact H2 | exact H3].
      * right. destruct H4; auto.
    + destruct (IH cur) as [m [H1 [H2 [H3 H4]]]].
      assert (Hle : cur <= x).
      { apply Qnot_lt_le. intros C. apply Qlt_bool_iff in C. congruence. }
      exists m. split; [exact H1|]. split; [exact H2|]. split.
      * constructor; [lra | exact H3].
      * destruct H4; auto.
Qed.

Lemma running_max (rest : list Q) :
  forall cur,
  exists m,
    for_each (fun item c => let* b := py_gt item c in
                            Ok (if b then item else c))
             (map (@Some Q) rest) (Some cur) = Ok (Some m)
    /\ cur <= m /\ Forall (fun q => q <= m) rest
    /\ (m = cur \/ In m rest).
Proof.
  induction rest as [|x rest IH]; intros cur; simpl.
  - exists cur. repeat split; auto. apply Qle_refl.
  - unfold py_gt, py_lt. cbn [bind].
    destruct (Qlt_bool cur x) eqn:E.
    + destruct (IH x) as [m [H1 [H2 [H3 H4]]]].
      apply Qlt_bool_iff in E.
      exists m. split; [exact H1|]. split; [lra|]. split.
      * constructor; [exact H2 | exact H3].
      * right. destruct H4; auto.
    + destruct (IH cur) as [m [H1 [H2 [H3 H4]]]].
      assert (Hle : x <= cur).
      { apply Qnot_lt_le. intros C. apply Qlt_bool_iff in C. congruence. }
      exists m. split; [exact H1|]. split; [exact H2|]. split.
      * constructor; [lra | exact H3].
      * destruct H4; auto.
Qed.

Lemma scores_all_set (l : list NodeWithScore) :
  Forall (fun n => score n <> None) l ->
  map score l = map (@Some Q) (map score_key l).
Proof.
  induction 1 as [|n l Hn Hl IH]; simpl; [reflexivity|].
  rewrite IH. f_equal. unfold score_key.
  destruct (score n); [reflexivity | contradiction].
Qed.

Lemma normalize_in_range (mn mx s : Q) :
  mn <= s -> s <= mx ->
  exists v,
    normalize (Some mn) (Some mx) (Some s) = Ok (Some v)
    /\ 0 <= v /\ v <= 1
    /\ (mx == mn -> v == if Qlt_bool 0 mx then 1 else 0)
    /\ (~ mx == mn -> v == (s - mn) / (mx - mn)).
Proof.
  intros H1 H2. unfold normalize, py_eq.
  destruct (Qeq_bool mx mn) eqn:E.
  - unfold py_gt, py_lt. cbn [bind].
    exists (if Qlt_bool 0 mx then 1 else 0).
    apply Qeq_bool_iff in E.
    split; [reflexivity|]. destruct (Qlt_bool 0 mx).
    + repeat split; try lra; intros; first [reflexivity | contradiction].
    + repeat split; try lra; intros; first [reflexivity | contradiction].
  - assert (Hne : ~ mx == mn).
    { intros C. apply Qeq_bool_iff in C. congruence. }
    assert (Hpos : 0 < mx - mn) by (destruct (Qlt_le_dec mn mx); lra).
    cbn [py_arith bind py_div].
    destruct (Qeq_bool (mx - mn) 0) eqn:E'.
    { apply Qeq_bool_iff in E'. lra. }
    exists ((s - mn) / (mx - mn)). split; [reflexivity|].
    split; [apply Qle_shift_div_l; lra|].
    split; [apply Qle_shift_div_r; lra|].
    split; [intros C; contradiction | intros _; reflexivity].
Qed.

Lemma min_max_own_bounds (pow_half : Q -> Q) (l : list NodeWithScore) :
  Forall (fun n => score n <> None) l ->
  exists mn mx,
    min_max_of pow_half false l = Ok (Some mn, Some mx)
    /\ (l = [] -> mn = 0 /\ mx = 0)
    /\ (l <> [] -> In mn (map score_key l) /\ In mx (map score_key l))
    /\ Forall (fun n => mn <= score_key n /\ score_key n <= mx) l.
Proof.
  intros Hsc. destruct l as [|n0 l0].
  - exists 0, 0. simpl. repeat split; auto; try constructor.
  - pose proof (scores_all_set Hsc) as Hmap. cbn [map] in Hmap.
    unfold min_max_of, bounds. cbn [map]. rewrite Hmap. unfold py_min, py_max.
    destruct (running_min (map score_key l0) (score_key n0))
      as [mn [Hmn [H1 [H2 H3]]]].
    destruct (running_max (map score_key l0) (score_key n0))
      as [mx [Hmx [H4 [H5 H6]]]].
    exists mn, mx. rewrite Hmn. cbn [bind]. rewrite Hmx. cbn [bind].
    split; [reflexivity|]. split; [intros C; discriminate C|].
    split; [intros _; cbn [map]; split; [destruct H3 | destruct H6];
            simpl; auto|].
    constructor; [split; assumption|].
    rewrite Forall_map in H2, H5. rewrite Forall_forall in *.
    intros n Hn. split; auto.
Qed.

(** ** Concurrent fan-out *)

Section GatherFacts.
Variable R : Type.

Lemma slot_set_length (i : nat) (v : R) (slots : list (option R)) :
  List.length (slot_set i v slots) = List.length slots.
Proof.
  revert i; induction slots as [|s slots IH]; intros [|i]; simpl; auto.
Qed.

Lemma slot_set_same (i : nat) (v : R) (slots : list (option R)) :
  (i < List.length slots)%nat -> nth_error (slot_set i v slots) i = Some (Some v).
Proof.
  revert i; induction slots as [|s slots IH]; intros [|i] H; simpl in *;
    try lia; [reflexivity | apply IH; lia].
Qed.

Lemma slot_set_other (i j : nat) (v : R) (slots : list (option R)) :
  i <> j -> nth_error (slot_set i v slots) j = nth_error slots j.
Proof.
  revert i j; induction slots as [|s slots IH]; intros [|i] [|j] H; simpl;
    try reflexivity; try congruence.
  apply IH; congruence.
Qed.

(** Once every task named in [order] has completed, its slot holds its
    result and the other slots are untouched. *)
Lemma complete_in_order_slots (rs : list R) (order : list nat) :
  forall slots,
  List.length slots = List.length rs ->
  exists slots',
    complete_in_order (map (@Ok R) rs) order slots = Ok slots'
    /\ List.length slots' = List.length rs
    /\ forall i, (In i order -> (i < List.length rs)%nat ->
                  nth_error slots' i = option_map (@Some R) (nth_error rs i))
                 /\ (~ In i order -> nth_error slots' i = nth_error slots i).
Proof.
  induction order as [|j order IH]; intros slots Hlen; simpl.
  - exists slots. split; [reflexivity|]. split; [exact Hlen|].
    intros i; split; [contradiction | reflexivity].
  - rewrite nth_error_map.
    destruct (nth_error rs j) as [r|] eqn:Ej; simpl.
    + destruct (IH (slot_set j r slots)) as [slots' [H1 [H2 H3]]].
      { rewrite slot_set_length; exact Hlen. }
      exists slots'. split; [exact H1|]. split; [exact H2|].
      intros i. destruct (H3 i) as [Ha Hb]. split.
      * intros Hin Hi.
        destruct (in_dec Nat.eq_dec i order) as [Hio|Hio]; [auto|].
        destruct Hin as [Heq|Hin]; [subst j | contradiction].
        rewrite (Hb Hio), slot_set_same by lia. rewrite Ej. reflexivity.
      * intros Hni. rewrite Hb by tauto.
        apply slot_set_other. intros C; apply Hni; left; exact C.
    + destruct (IH slots Hlen) as [slots' [H1 [H2 H3]]].
      exists slots'. split; [exact H1|]. split; [exact H2|].
      intros i. destruct (H3 i) as [Ha Hb]. split.
      * intros Hin Hi.
        destruct (in_dec Nat.eq_dec i order) as [Hio|Hio]; [auto|].
        destruct Hin as [Heq|Hin]; [subst j | contradiction].
        apply nth_error_None in Ej. lia.
      * intros Hni. apply Hb. tauto.
Qed.

Lemma collect_all (rs : list R) : collect (map (@Some R) rs) = Some rs.
Proof.
  induction rs as [|r rs IH]; simpl; [reflexivity | rewrite IH; reflexivity].
Qed.

(** Whatever the completion order, the gathered results follow the order of
    the tasks. *)
Lemma gather_in_task_order (rs : list R) (order : list nat) :
  Permutation order (seq 0 (List.length rs)) ->
  gather (map (@Ok R) rs) order = Some (Ok rs).
Proof.
  intros Hperm. unfold gather. rewrite length_map.
  destruct (@complete_in_order_slots rs order (repeat None (List.length rs)))
    as [slots' [H1 [H2 H3]]].
  { apply repeat_length. }
  rewrite H1.
  assert (Hslots : slots' = map (@Some R) rs).
  { apply nth_error_ext. intros i. rewrite nth_error_map.
    destruct (Nat.lt_ge_cases i (List.length rs)) as [Hi|Hi].
    - apply (H3 i); [|exact Hi].
      eapply Permutation_in; [apply Permutation_sym, Hperm|].
      apply in_seq. lia.
    - rewrite (proj2 (nth_error_None rs i)) by exact Hi. simpl.
      apply nth_error_None. lia. }
  rewrite Hslots, collect_all. reflexivity.
Qed.

Lemma all_ok_results (tasks : list (Res R)) :
  Forall (fun t => is_ok t = true) tasks ->
  exists rs, tasks = map (@Ok R) rs.
Proof.
  induction 1 as [|t tasks Ht Hall [rs IH]].
  - exists []. reflexivity.
  - destruct t as [r|e]; [|discriminate].
    exists (r :: rs). simpl. rewrite IH. reflexivity.
Qed.

End GatherFacts.

(** C5: when every retrieval call of the fan-out returns its result list,
    the fused output (nodes, order and scores) is the same under any two
    completion orders of the calls, for every fusion mode, and the
    invocation does complete. *)
Theorem fusion_independent_of_completion_order (pow_half : Q -> Q)
  (self : MyQueryFusionRetriever) (query_str : string)
  (queries : list string) (order1 order2 : list nat) :
  build_queries self query_str = Ok queries ->
  Forall (fun t => is_ok t = true) (tasks self queries) ->
  Permutation order1 (seq 0 (List.length (tasks self queries))) ->
  Permutation order2 (seq 0 (List.length (tasks self queries))) ->
  _aretrieve pow_half self order1 query_str
  = _aretrieve pow_half self order2 query_str
  /\ _retrieve pow_half self order1 query_str
     = _retrieve pow_half self order2 query_str
  /\ (exists r, _aretrieve pow_half self order1 query_str = Some r)
  /\ (exists r, _retrieve pow_half self order1 query_str = Some r).
Proof.
  intros Hq Hok Hp1 Hp2.
  destruct (all_ok_results Hok) as [rs Hrs].
  rewrite Hrs, length_map in Hp1, Hp2.
  assert (Hrun : forall order,
             Permutation order (seq 0 (List.length rs)) ->
             _run_async_queries self order queries
             = Some (Ok (zip_results (task_queries self queries) rs))).
  { intros order Hp. unfold _run_async_queries.
    rewrite Hrs, (@gather_in_task_order _ rs order Hp). reflexivity. }
  unfold _aretrieve, _retrieve, _run_nested_async_queries.
  rewrite Hq, (Hrun order1 Hp1), (Hrun order2 Hp2).
  split; [reflexivity|]. split; [reflexivity|].
  split; [eexists; reflexivity|].
  destruct (use_async self); eexists; reflexivity.
Qed.

Lemma fusion_independent_of_completion_order_witness :
  _aretrieve sqrt_floor (two_sources RELATIVE_SCORE 2) [0; 1]%nat "q"
  = _aretrieve sqrt_floor (two_sources RELATIVE_SCORE 2) [1; 0]%nat "q"
  /\ _retrieve sqrt_floor (two_sources RELATIVE_SCORE 2) [0; 1]%nat "q"
     = _retrieve sqrt_floor (two_sources RELATIVE_SCORE 2) [1; 0]%nat "q"
  /\ (exists r, _aretrieve sqrt_floor (two_sources RELATIVE_SCORE 2)
                           [0; 1]%nat "q" = Some r)
  /\ (exists r, _retrieve sqrt_floor (two_sources RELATIVE_SCORE 2)
                          [0; 1]%nat "q" = Some r).
Proof.
  apply (@fusion_independent_of_completion_order sqrt_floor
           (two_sources RELATIVE_SCORE 2) "q" ["q"%string] [0; 1]%nat [1; 0]%nat).
  - reflexivity.
  - repeat constructor.
  - simpl. apply Permutation_refl.
  - simpl. apply perm_swap.
Defined.


(** * Further properties of the fusion retriever *)

Lemma desc_by_ext (A : Type) (f g : A -> Q) (l : list A) :
  (forall x, f x == g x) ->
  StronglySorted (desc_by f) l -> StronglySorted (desc_by g) l.
Proof.
  intros Hfg. induction 1 as [|a l Hs IH Ha]; constructor; [exact IH|].
  eapply Forall_impl; [|exact Ha].
  intros b Hb. unfold desc_by in *. rewrite <- !Hfg. exact Hb.
Qed.

Lemma score_or_zero_key (n : NodeWithScore) :
  score_or 0 (score n) == score_key n.
Proof.
  unfold score_or, score_key. destruct (score n) as [q|]; [|reflexivity].
  destruct (Qeq_bool q 0) eqn:E; [|reflexivity].
  apply Qeq_bool_iff in E. symmetry. exact E.
Qed.

Lemma find_app_some (A : Type) (p : A -> bool) (l l' : list A) (x : A) :
  find p l = Some x -> find p (l ++ l') = Some x.
Proof.
  induction l as [|a l IH]; simpl; [discriminate|].
  destruct (p a); auto.
Qed.

Lemma find_app_none (A : Type) (p : A -> bool) (l l' : list A) :
  find p l = None -> find p (l ++ l') = find p l'.
Proof.
  induction l as [|a l IH]; simpl; [reflexivity|].
  destruct (p a); [discriminate | auto].
Qed.

Lemma find_none_content (t : string) (l : list NodeWithScore) :
  ~ In t (map content l) -> find (has_content t) l = None.
Proof.
  induction l as [|a l IH]; simpl; intros H; [reflexivity|].
  unfold has_content at 1. destruct (String.eqb (content a) t) eqn:E.
  - apply String.eqb_eq in E. exfalso; apply H; left; exact E.
  - apply IH. intros C; apply H; right; exact C.
Qed.

(** ** Simple fusion *)

Lemma simple_inv_init : simple_inv [] [].
Proof.
  constructor; simpl.
  - constructor.
  - tauto.
  - discriminate.
Qed.

Lemma simple_step_inv (seen : list NodeWithScore) (d : TextDict NodeWithScore)
  (n : NodeWithScore) :
  score n <> None -> simple_inv seen d ->
  exists d', simple_step n d = Ok d' /\ simple_inv (seen ++ [n]) d'.
Proof.
  intros Hn [H1 H2 H3]. unfold simple_step.
  destruct (score n) as [sn|] eqn:Esn; [clear Hn | contradiction].
  destruct (dict_get String.eqb (content n) d) as [m|] eqn:E.
  - destruct (H3 _ _ E) as [Hc [s [Hs [Hmax [Hatt Hfirst]]]]].
    rewrite Hs. unfold py_max2, py_gt, py_lt. cbn [bind].
    eexists. split; [reflexivity|].
    assert (Hin : In (content n) (keys d))
      by (eapply dict_get_In_keys; [apply String.eqb_eq | exact E]).
    constructor.
    + apply (NoDup_keys_dict_set String.eqb String.eqb_eq); exact H1.
    + intros t. rewrite (In_keys_dict_set String.eqb String.eqb_eq), H2.
      rewrite map_app, in_app_iff. simpl.
      split; [intros [H|H]; subst; auto | intros [H|[H|[]]]; subst; auto].
    + intros t m'. destruct (String.eqb t (content n)) eqn:Et.
      * apply String.eqb_eq in Et. subst t.
        rewrite (dict_get_set_same String.eqb String.eqb_eq).
        intros Hm'. inversion Hm'; subst m'; clear Hm'.
        split; [exact Hc|].
        exists (if Qlt_bool sn s then s else sn).
        split; [destruct (Qlt_bool sn s); reflexivity|].
        assert (Hcmp : (Qlt_bool sn s = true /\ sn < s)
                       \/ (Qlt_bool sn s = false /\ s <= sn)).
        { destruct (Qlt_bool sn s) eqn:Eb.
          - left. split; [reflexivity | apply Qlt_bool_iff; exact Eb].
          - right. split; [reflexivity|].
            apply Qnot_lt_le. intros C. apply Qlt_bool_iff in C. congruence. }
        split; [|split].
        -- intros x Hx Hcx. apply in_app_iff in Hx.
           destruct Hx as [Hx|[Hx|[]]].
           ++ specialize (Hmax x Hx Hcx).
              destruct Hcmp as [[-> Hlt]|[-> Hle]]; lra.
           ++ subst x. unfold score_key. rewrite Esn.
              destruct Hcmp as [[-> Hlt]|[-> Hle]]; lra.
        -- destruct Hcmp as [[-> Hlt]|[-> Hle]].
           ++ destruct Hatt as [x [Hx [Hcx Hsx]]].
              exists x. rewrite in_app_iff. auto.
           ++ exists n. rewrite in_app_iff. simpl. auto.
        -- destruct Hfirst as [n0 [Hf Hn0]].
           exists n0. split; [apply find_app_some; exact Hf | exact Hn0].
      * assert (Hne : t <> content n).
        { intros C; subst; rewrite String.eqb_refl in Et; discriminate. }
        rewrite (dict_get_set_other String.eqb String.eqb_eq) by exact Hne.
        intros Hm'. destruct (H3 _ _ Hm') as [Hc' [s' [Hs' [Hmax' [Hatt' Hfirst']]]]].
        split; [exact Hc'|]. exists s'. split; [exact Hs'|].
        split; [|split].
        -- intros x Hx Hcx. apply in_app_iff in Hx.
           destruct Hx as [Hx|[Hx|[]]]; [auto | subst x; congruence].
        -- destruct Hatt' as [x [Hx Hrest]]. exists x.
           rewrite in_app_iff. auto.
        -- destruct Hfirst' as [n0 [Hf Hn0]].
           exists n0. split; [apply find_app_some; exact Hf | exact Hn0].
  - eexists. split; [reflexivity|].
    assert (Hnin : ~ In (content n) (keys d))
      by (apply (dict_get_None String.eqb String.eqb_eq); exact E).
    constructor.
    + apply (NoDup_keys_dict_set String.eqb String.eqb_eq); exact H1.
    + intros t. rewrite (In_keys_dict_set String.eqb String.eqb_eq), H2.
      rewrite map_app, in_app_iff. simpl.
      split; [intros [H|H]; subst; auto | intros [H|[H|[]]]; subst; auto].
    + intros t m'. destruct (String.eqb t (content n)) eqn:Et.
      * apply String.eqb_eq in Et. subst t.
        rewrite (dict_get_set_same String.eqb String.eqb_eq).
        intros Hm'. inversion Hm'; subst m'; clear Hm'.
        split; [reflexivity|]. exists sn. split; [exact Esn|].
        assert (Hnone : forall x, In x seen -> content x <> content n).
        { intros x Hx C. apply Hnin, H2. rewrite <- C. apply in_map; exact Hx. }
        split; [|split].
        -- intros x Hx Hcx. apply in_app_iff in Hx.
           destruct Hx as [Hx|[Hx|[]]].
           ++ exfalso. eapply Hnone; eauto.
           ++ subst x. unfold score_key. rewrite Esn. apply Qle_refl.
        -- exists n. rewrite in_app_iff. simpl. auto.
        -- exists n. split; [|reflexivity].
           rewrite find_app_none.
           ++ simpl. unfold has_content. rewrite String.eqb_refl. reflexivity.
           ++ apply find_none_content. rewrite <- H2. exact Hnin.
      * assert (Hne : t <> content n).
        { intros C; subst; rewrite String.eqb_refl in Et; discriminate. }
        rewrite (dict_get_set_other String.eqb String.eqb_eq) by exact Hne.
        intros Hm'. destruct (H3 _ _ Hm') as [Hc' [s' [Hs' [Hmax' [Hatt' Hfirst']]]]].
        split; [exact Hc'|]. exists s'. split; [exact Hs'|].
        split; [|split].
        -- intros x Hx Hcx. apply in_app_iff in Hx.
           destruct Hx as [Hx|[Hx|[]]]; [auto | subst x; congruence].
        -- destruct Hatt' as [x [Hx Hrest]]. exists x.
           rewrite in_app_iff. auto.
        -- destruct Hfirst' as [n0 [Hf Hn0]].
           exists n0. split; [apply find_app_some; exact Hf | exact Hn0].
Qed.

Lemma simple_loop_inv (l : list NodeWithScore) :
  forall seen d,
  all_scored l -> simple_inv seen d ->
  exists d', for_each simple_step l d = Ok d' /\ simple_inv (seen ++ l) d'.
Proof.
  induction l as [|n l IH]; intros seen d Hsc Hinv; simpl.
  - exists d. rewrite app_nil_r. auto.
  - inversion Hsc as [|? ? Hn Hl]; subst.
    destruct (@simple_step_inv seen d n Hn Hinv) as [d1 [H1 Hinv1]].
    rewrite H1. cbn [bind].
    destruct (IH (seen ++ [n]) d1 Hl Hinv1) as [d' [H2 Hinv2]].
    exists d'. split; [exact H2|]. rewrite <- app_assoc in Hinv2. exact Hinv2.
Qed.

Lemma entries_content (d : TextDict NodeWithScore) :
  NoDup (keys d) ->
  (forall t m, dict_get String.eqb t d = Some m -> content m = t) ->
  map content (map snd d) = keys d.
Proof.
  intros Hnd Hc. unfold keys. rewrite map_map. apply map_ext_in.
  intros [t m] Hin. simpl. apply Hc.
  apply (In_dict_get String.eqb String.eqb_eq); assumption.
Qed.

(** X1: with every score set, simple fusion returns one node per distinct
    content; that node carries the payload of the first node of that content
    in iteration order and the largest score any node of that content has;
    the output is sorted by score descending. *)
Theorem simple_fusion_keeps_first_node_and_max_score (results : Results) :
  all_scored (all_nodes_of results) ->
  exists out,
    _simple_fusion results = Ok out
    /\ NoDup (map content out)
    /\ (forall t, In t (map content out)
                  <-> In t (map content (all_nodes_of results)))
    /\ (forall m, In m out ->
          exists s,
            score m = Some s
            /\ (forall n, In n (all_nodes_of results) ->
                          content n = content m -> score_key n <= s)
            /\ (exists n, In n (all_nodes_of results)
                          /\ content n = content m /\ score n = Some s)
            /\ (exists n0, find (has_content (content m))
                                (all_nodes_of results) = Some n0
                           /\ node m = node n0))
    /\ StronglySorted (desc_by score_key) out.
Proof.
  intros Hsc.
  destruct (@simple_loop_inv (all_nodes_of results) [] [] Hsc simple_inv_init)
    as [d [Hd [H1 H2 H3]]].
  cbn [app] in *.
  exists (sort_by_score_or_zero (map snd d)).
  assert (Hperm : Permutation (sort_by_score_or_zero (map snd d)) (map snd d))
    by apply sorted_desc_perm.
  assert (Hkeys : map content (map snd d) = keys d).
  { apply entries_content; [exact H1|]. intros t m Hm. apply (H3 _ _ Hm). }
  split; [|split; [|split; [|split]]].
  - unfold _simple_fusion. fold (all_nodes_of results). rewrite Hd. reflexivity.
  - eapply Permutation_NoDup;
      [apply Permutation_sym, Permutation_map, Hperm|].
    rewrite Hkeys. exact H1.
  - intros t. rewrite <- H2, <- Hkeys.
    split; apply Permutation_in, Permutation_map;
      [exact Hperm | apply Permutation_sym, Hperm].
  - intros m Hm.
    apply (Permutation_in _ Hperm) in Hm.
    apply in_map_iff in Hm. destruct Hm as [[t m'] [Heq Hin]].
    simpl in Heq. subst m'.
    assert (Hg : dict_get String.eqb t d = Some m)
      by (apply (In_dict_get String.eqb String.eqb_eq); assumption).
    destruct (H3 _ _ Hg) as [Hc Hrest]. rewrite Hc. exact Hrest.
  - apply (@desc_by_ext _ (fun x => score_or 0 (score x)) score_key).
    + apply score_or_zero_key.
    + apply sorted_desc_sorted.
Qed.

Lemma simple_fusion_keeps_first_node_and_max_score_witness :
  exists out,
    _simple_fusion scenario = Ok out
    /\ NoDup (map content out)
    /\ StronglySorted (desc_by score_key) out.
Proof.
  destruct (@simple_fusion_keeps_first_node_and_max_score scenario)
    as [out [H1 [H2 [_ [_ H3]]]]].
  - repeat constructor; simpl; discriminate.
  - exists out. auto.
Defined.

(** ** Relative score fusion *)


Lemma py_sum_set (qs : list Q) :
  forall acc, exists total,
    for_each (fun item a => py_arith Qplus a item) (map (@Some Q) qs) (Some acc)
    = Ok (Some total).
Proof.
  induction qs as [|q qs IH]; intros acc; simpl; [eauto|].
  apply IH.
Qed.

Lemma sq_dev_set (mean : Q) (qs : list Q) :
  map_res (sq_dev mean) (map (@Some Q) qs)
  = Ok (map (@Some Q) (map (fun q => (q - mean) * (q - mean)) qs)).
Proof.
  induction qs as [|q qs IH]; simpl; [reflexivity|].
  rewrite IH. reflexivity.
Qed.

Lemma min_max_of_scored (pow_half : Q -> Q) (dist_based : bool)
  (l : list NodeWithScore) :
  all_scored l ->
  exists mn mx, min_max_of pow_half dist_based l = Ok (Some mn, Some mx).
Proof.
  intros Hsc. destruct l as [|n0 l0]; [exists 0, 0; reflexivity|].
  pose proof (scores_all_set Hsc) as Hmap.
  unfold min_max_of, bounds. rewrite Hmap.
  set (qs := map score_key (n0 :: l0)).
  destruct dist_based.
  - unfold py_sum.
    destruct (py_sum_set qs 0) as [total Ht]. rewrite Ht. cbn [bind].
    assert (Hlen : Qeq_bool (inject_Z (Z.of_nat (List.length (map (@Some Q) qs)))) 0
                   = false).
    { destruct (Qeq_bool _ 0) eqn:E; [|reflexivity].
      apply Qeq_bool_iff in E.
      apply (proj1 (inject_Z_injective _ 0%Z)) in E.
      unfold qs in E. rewrite !length_map in E. simpl in E. lia. }
    unfold py_div at 1. rewrite Hlen. cbn [bind].
    rewrite sq_dev_set. cbn [bind].
    match goal with
    | |- context [for_each _ (map (@Some Q) ?l) (Some 0)] =>
        destruct (py_sum_set l 0) as [td Htd]
    end.
    rewrite Htd. cbn [bind]. unfold py_div. rewrite Hlen. cbn [bind].
    eexists. eexists. reflexivity.
  - unfold py_min, py_max. unfold qs. cbn [map].
    destruct (running_min (map score_key l0) (score_key n0)) as [mn [Hmn _]].
    destruct (running_max (map score_key l0) (score_key n0)) as [mx [Hmx _]].
    rewrite Hmn. cbn [bind]. rewrite Hmx. cbn [bind].
    exists mn, mx. reflexivity.
Qed.







Section RelativeFacts.
Variable pow_half : Q -> Q.
Variable self : MyQueryFusionRetriever.
Variable dist_based : bool.

Lemma min_max_loop (results : Results) :
  forall acc,
  NoDup (keys results) ->
  (forall k l, In (k, l) results -> all_scored l) ->
  exists mm,
    for_each (fun item acc =>
                let* mm := min_max_of pow_half dist_based (snd item) in
                Ok (dict_set query_tuple_eqb (fst item) mm acc))
             results acc = Ok mm
    /\ (forall k l, In (k, l) results ->
          exists mn mx,
            min_max_of pow_half dist_based l = Ok (Some mn, Some mx)
            /\ dict_get query_tuple_eqb k mm = Some (Some mn, Some mx))
    /\ (forall k, ~ In k (keys results) ->
          dict_get query_tuple_eqb k mm = dict_get query_tuple_eqb k acc).
Proof.
  induction results as [|[k l] rest IH]; intros acc Hnd Hsc.
  - exists acc. simpl. split; [reflexivity|]. split; [contradiction | auto].
  - inversion Hnd as [|? ? Hk Hnd']; subst.
    destruct (@min_max_of_scored pow_half dist_based l) as [mn [mx Hmm]].
    { apply (Hsc k l). left; reflexivity. }
    destruct (IH (dict_set query_tuple_eqb k (Some mn, Some mx) acc) Hnd')
      as [mm [H1 [H2 H3]]].
    { intros k' l' Hin. apply (Hsc k' l'). right; exact Hin. }
    exists mm. cbn [for_each fst snd]. rewrite Hmm. cbn [bind].
    split; [exact H1|]. split.
    + intros k' l' [Heq|Hin].
      * inversion Heq; subst k' l'. exists mn, mx. split; [exact Hmm|].
        rewrite (H3 k Hk).
        apply (dict_get_set_same query_tuple_eqb query_tuple_eqb_eq).
      * apply H2; exact Hin.
    + intros k' Hk'. rewrite H3 by (intros C; apply Hk'; right; exact C).
      apply (dict_get_set_other query_tuple_eqb query_tuple_eqb_eq).
      intros C; apply Hk'; left; symmetry; exact C.
Qed.



End RelativeFacts.

Lemma moderate_scores_all_scored (l : list NodeWithScore) :
  moderate_scores l -> all_scored l.
Proof.
  unfold moderate_scores, all_scored. intros H.
  rewrite Forall_forall in *. intros n Hn. specialize (H n Hn).
  destruct (score n); [discriminate | contradiction].
Qed.

Lemma all_scored_lists (results : Results) :
  all_scored (all_nodes_of results) ->
  forall k l, In (k, l) results -> all_scored l.
Proof.
  intros Hsc k l Hin. unfold all_scored, all_nodes_of in *.
  rewrite Forall_forall in *. intros n Hn. apply Hsc.
  apply in_concat. exists l. split; [|exact Hn].
  unfold values. apply (in_map snd) in Hin. exact Hin.
Qed.

Lemma moderate_small (x : Q) : -1 <= x -> x <= 1 -> moderate x.
Proof.
  intros H1 H2. unfold moderate.
  assert (H : 1 <= MODERATE) by (vm_compute; discriminate).
  split; lra.
Qed.



(** C6, as amended: in [relative_score] mode, on a result mapping whose
    scores are all set and of moderate magnitude, the bounds stored for a
    result list are that list's own minimum and maximum, (0, 0) for an empty
    list, which raises nothing; the score the fusion computes for a node
    before weighting (what [rescale] then multiplies by the retriever weight
    and divides by the number of queries) lies in [0, 1], and is 1 or 0
    according to [max > 0] when the maximum equals the minimum; and the
    scores 0.2, 0.8, 0.5 of a single source are fused, with weight 1 and one
    query, to 1, 0.5 and 0 (in descending order). *)
Theorem relative_score_normalization_bounds (pow_half : Q -> Q)
  (self : MyQueryFusionRetriever) (results : Results)
  (key : QueryTuple) (l : list NodeWithScore) :
  NoDup (keys results) ->
  moderate_scores (all_nodes_of results) ->
  In (key, l) results ->
  (exists mm mn mx,
      min_max_scores pow_half false results = Ok mm
      /\ dict_lookup query_tuple_eqb key mm = Ok (Some mn, Some mx)
      /\ min_max_of pow_half false l = Ok (Some mn, Some mx)
      /\ _relative_score_fusion pow_half self results false
         = (let* rescaled := rescale_all self mm results in
            let* all_nodes := for_each sum_step (all_nodes_of rescaled) [] in
            Ok (sort_by_score_or_zero (map snd all_nodes)))
      /\ (l = [] -> mn = 0 /\ mx = 0)
      /\ (l <> [] -> In mn (map score_key l) /\ In mx (map score_key l))
      /\ Forall (fun n => mn <= score_key n /\ score_key n <= mx) l
      /\ Forall (fun n =>
                   exists v,
                     normalize (Some mn) (Some mx) (score n) = Ok (Some v)
                     /\ 0 <= v /\ v <= 1
                     /\ (mx == mn -> v == if Qlt_bool 0 mx then 1 else 0)
                     /\ (~ mx == mn -> v == (score_key n - mn) / (mx - mn))
                     /\ rescale self mm key n
                        = (let* w := weight_at self (snd key) in
                           let* s := py_arith Qmult (Some v) w in
                           let* s := py_div s (Some (inject_Z (num_queries self))) in
                           Ok (set_score n s)))
                l)
  /\ (forall other,
        _relative_score_fusion pow_half self [(other, [])] false = Ok [])
  /\ (exists out,
        _relative_score_fusion pow_half (bare_retriever [1] 1) example_results
                               false = Ok out
        /\ map content out = ["n2"; "n3"; "n1"]%string
        /\ match map score out with
           | [Some a; Some b; Some c] => a == 1 /\ b == 5 # 10 /\ c == 0
           | _ => False
           end).
Proof.
  intros Hnd Hmod Hin.
  pose proof (@moderate_scores_all_scored _ Hmod) as Hsc.
  pose proof (@all_scored_lists results Hsc) as Hlists.
  split; [|split].
  - destruct (@min_max_loop pow_half false results [] Hnd Hlists)
      as [mm [Hmm [Hget _]]].
    destruct (Hget key l Hin) as [mn [mx [Hb Hg]]].
    destruct (@min_max_own_bounds pow_half l (Hlists key l Hin))
      as [mn' [mx' [Hb' [He [Hne Hrange]]]]].
    assert (Heq : mn' = mn /\ mx' = mx).
    { rewrite Hb in Hb'. inversion Hb'. split; reflexivity. }
    destruct Heq; subst mn' mx'.
    exists mm, mn, mx.
    split; [exact Hmm|].
    split; [unfold dict_lookup; rewrite Hg; reflexivity|].
    split; [exact Hb|].
    split.
    { unfold _relative_score_fusion, min_max_scores. rewrite Hmm.
      reflexivity. }
    split; [exact He|]. split; [exact Hne|]. split; [exact Hrange|].
    pose proof (Hlists key l Hin) as Hl. unfold all_scored in Hl.
    rewrite Forall_forall in *. intros n Hn.
    destruct (Hrange n Hn) as [Ha Hb2].
    specialize (Hl n Hn).
    destruct (normalize_in_range Ha Hb2) as [v [Hv [H0 [H1 [H2 H3]]]]].
    exists v. unfold score_key in *.
    destruct (score n) as [q|] eqn:Es; [|contradiction].
    split; [exact Hv|]. split; [exact H0|]. split; [exact H1|].
    split; [exact H2|]. split; [exact H3|].
    unfold rescale, dict_lookup. rewrite Hg. cbn [bind]. rewrite Es, Hv.
    reflexivity.
  - intros other. unfold _relative_score_fusion, min_max_scores. simpl.
    reflexivity.
  - eexists. split; [vm_compute; reflexivity|].
    split; [reflexivity|]. simpl. repeat split; reflexivity.
Qed.

Lemma relative_score_normalization_bounds_witness :
  exists mm mn mx,
    min_max_scores sqrt_floor false example_results = Ok mm
    /\ dict_lookup query_tuple_eqb ("q"%string, 0%nat) mm = Ok (Some mn, Some mx)
    /\ mn == 2 # 10 /\ mx == 8 # 10
    /\ Forall (fun n =>
                 exists v,
                   0 <= v /\ v <= 1
                   /\ rescale (bare_retriever [1] 1) mm ("q"%string, 0%nat) n
                      = Ok (set_score n (Some (v * 1 / inject_Z 1))))
              example_scores.
Proof.
  destruct (@relative_score_normalization_bounds sqrt_floor
              (bare_retriever [1] 1) example_results ("q"%string, 0%nat)
              example_scores)
    as [[mm [mn [mx [H1 [H2 [H3 [_ [_ [_ [_ H4]]]]]]]]]] _].
  - repeat constructor; simpl; tauto.
  - repeat constructor; simpl; apply moderate_small; unfold Qle; simpl; lia.
  - left; reflexivity.
  - exists mm, mn, mx. split; [exact H1|]. split; [exact H2|].
    assert (Hb : mn = 2 # 10 /\ mx = 8 # 10).
    { vm_compute in H3. inversion H3. split; reflexivity. }
    destruct Hb; subst mn mx.
    split; [reflexivity|]. split; [reflexivity|].
    rewrite Forall_forall in *. intros n Hn.
    destruct (H4 n Hn) as [v [_ [H0 [Hle [_ [_ Hr]]]]]].
    exists v. split; [exact H0|]. split; [exact Hle|].
    rewrite Hr. reflexivity.
Defined.

(** C6 as worded fails on binary64 floats.  For the scores -1e308 and 1e308
    the difference of the bounds overflows to [inf] and the larger score
    normalizes to [inf / inf], which is [nan] and not in [0, 1]; and the
    scores 0.2, 0.8, 0.5 normalize to 0.0, 1.0 and 0.4999999999999999. *)
Lemma normalization_overflow_counterexample :
  (exists v,
      float_min_max_normalized [(-1e308); 1e308]%float = Ok [0%float; v]
      /\ PrimFloat.is_nan v = true
      /\ float_in_unit_interval v = false)
  /\ float_min_max_normalized [0.2; 0.8; 0.5]%float
     = Ok [0; 1; 0.4999999999999999]%float.
Proof.
  split.
  - eexists. split; [vm_compute; reflexivity|]. split; reflexivity.
  - vm_compute. reflexivity.
Qed.

Lemma map_res_uniform_error (A B : Type) (f : A -> Res B) (e : PyErr)
  (l : list A) :
  (forall x, In x l -> (exists y, f x = Ok y) \/ f x = Err e) ->
  (exists x, In x l /\ f x = Err e) ->
  map_res f l = Err e.
Proof.
  induction l as [|a l IH]; intros Hall [x [Hin Hx]]; [contradiction|].
  simpl. destruct (Hall a (or_introl eq_refl)) as [[y Hy]|Ha].
  - rewrite Hy. cbn [bind].
    destruct Hin as [Heq|Hin]; [subst a; congruence|].
    rewrite IH; [reflexivity | intros z Hz; apply Hall; right; exact Hz |].
    exists x. auto.
  - rewrite Ha. reflexivity.
Qed.


Section RelativeErrors.
Variable pow_half : Q -> Q.
Variable self : MyQueryFusionRetriever.
Variable dist_based : bool.





End RelativeErrors.



(** ** Truncation and fan-out *)

Lemma py_slice_to_length (A : Type) (n : Z) (l : list A) :
  (0 <= n)%Z -> (List.length (py_slice_to n l) <= Z.to_nat n)%nat.
Proof.
  intros Hn. unfold py_slice_to.
  destruct (0 <=? n)%Z eqn:E; [apply firstn_le_length|].
  apply Z.leb_gt in E. lia.
Qed.

Lemma py_slice_to_prefix (A : Type) (n : Z) (l : list A) :
  exists rest, l = py_slice_to n l ++ rest.
Proof.
  unfold py_slice_to. destruct (0 <=? n)%Z; eexists;
    symmetry; apply firstn_skipn.
Qed.

(** X5: in every fusing mode, with a non-negative [similarity_top_k], the
    nodes returned by [_aretrieve] and [_retrieve] are the first
    [similarity_top_k] nodes of what the fusion strategy of that mode
    returns on the result mapping built by this call's fan-out over this
    call's queries (the concurrent runner for [_aretrieve]; for [_retrieve]
    the nested concurrent runner or the sequential one, by [use_async]); so
    they number at most [similarity_top_k]. *)
Theorem retrieval_returns_at_most_top_k (pow_half : Q -> Q)
  (self : MyQueryFusionRetriever) (order : list nat) (query_str : string)
  (out : list NodeWithScore) :
  mode self <> NO_FUSION ->
  (0 <= similarity_top_k self)%Z ->
  (_aretrieve pow_half self order query_str = Some (Ok out) ->
   exists queries results full,
     build_queries self query_str = Ok queries
     /\ _run_async_queries self order queries = Some (Ok results)
     /\ match mode self with
        | RECIPROCAL_RANK => _reciprocal_rerank_fusion results = Ok full
        | RELATIVE_SCORE =>
            _relative_score_fusion pow_half self results false = Ok full
        | DIST_BASED_SCORE =>
            _relative_score_fusion pow_half self results true = Ok full
        | SIMPLE => _simple_fusion results = Ok full
        | _ => False
        end
     /\ out = firstn (Z.to_nat (similarity_top_k self)) full
     /\ (List.length out <= Z.to_nat (similarity_top_k self))%nat)
  /\ (_retrieve pow_half self order query_str = Some (Ok out) ->
      exists queries results full,
        build_queries self query_str = Ok queries
        /\ (if use_async self
            then _run_nested_async_queries self order queries = Some (Ok results)
            else _run_sync_queries self queries = Ok results)
        /\ match mode self with
           | RECIPROCAL_RANK => _reciprocal_rerank_fusion results = Ok full
           | RELATIVE_SCORE =>
               _relative_score_fusion pow_half self results false = Ok full
           | DIST_BASED_SCORE =>
               _relative_score_fusion pow_half self results true = Ok full
           | SIMPLE => _simple_fusion results = Ok full
           | _ => False
           end
        /\ out = firstn (Z.to_nat (similarity_top_k self)) full
        /\ (List.length out <= Z.to_nat (similarity_top_k self))%nat).
Proof.
  intros Hmode Hk.
  assert (Hfuse : forall results,
            fuse pow_half self results = Ok out ->
            exists full,
              match mode self with
              | RECIPROCAL_RANK => _reciprocal_rerank_fusion results = Ok full
              | RELATIVE_SCORE =>
                  _relative_score_fusion pow_half self results false = Ok full
              | DIST_BASED_SCORE =>
                  _relative_score_fusion pow_half self results true = Ok full
              | SIMPLE => _simple_fusion results = Ok full
              | _ => False
              end
              /\ out = firstn (Z.to_nat (similarity_top_k self)) full
              /\ (List.length out <= Z.to_nat (similarity_top_k self))%nat).
  { intros results Hf. unfold fuse in Hf.
    assert (Hslice : forall full : list NodeWithScore,
              py_slice_to (similarity_top_k self) full
              = firstn (Z.to_nat (similarity_top_k self)) full).
    { intros full. unfold py_slice_to.
      destruct (0 <=? similarity_top_k self)%Z eqn:E; [reflexivity|].
      apply Z.leb_gt in E. lia. }
    destruct (mode self) eqn:Em; try contradiction; try discriminate.
    - destruct (_reciprocal_rerank_fusion results) as [full|] eqn:E;
        [|discriminate]. inversion Hf; subst out.
      exists full. rewrite Hslice.
      split; [reflexivity|]. split; [reflexivity | apply firstn_le_length].
    - destruct (_relative_score_fusion pow_half self results false)
        as [full|] eqn:E; [|discriminate]. inversion Hf; subst out.
      exists full. rewrite Hslice.
      split; [reflexivity|]. split; [reflexivity | apply firstn_le_length].
    - destruct (_relative_score_fusion pow_half self results true)
        as [full|] eqn:E; [|discriminate]. inversion Hf; subst out.
      exists full. rewrite Hslice.
      split; [reflexivity|]. split; [reflexivity | apply firstn_le_length].
    - destruct (_simple_fusion results) as [full|] eqn:E;
        [|discriminate]. inversion Hf; subst out.
      exists full. rewrite Hslice.
      split; [reflexivity|]. split; [reflexivity | apply firstn_le_length]. }
  split.
  - intros H. unfold _aretrieve in H.
    destruct (build_queries self query_str) as [queries|]; [|discriminate].
    destruct (_run_async_queries self order queries) as [[results|]|] eqn:Er;
      inversion H as [H'].
    destruct (Hfuse results H') as [full Hfull].
    exists queries, results, full. split; [reflexivity|].
    split; [exact Er | exact Hfull].
  - intros H. unfold _retrieve in H.
    destruct (build_queries self query_str) as [queries|]; [|discriminate].
    destruct (use_async self).
    + destruct (_run_nested_async_queries self order queries)
        as [[results|]|] eqn:Er; inversion H as [H'].
      destruct (Hfuse results H') as [full Hfull].
      exists queries, results, full. split; [reflexivity|].
      split; [exact Er | exact Hfull].
    + destruct (_run_sync_queries self queries) as [results|] eqn:Er;
        inversion H as [H'].
      destruct (Hfuse results H') as [full Hfull].
      exists queries, results, full. split; [reflexivity|].
      split; [exact Er | exact Hfull].
Qed.

Lemma retrieval_returns_at_most_top_k_witness :
  _aretrieve sqrt_floor (two_sources SIMPLE 2) [0; 1]%nat "q"
  = Some (Ok [text_node "a" (Some (9 # 10)); text_node "b" (Some (6 # 10))])
  /\ exists results full,
       _run_async_queries (two_sources SIMPLE 2) [0; 1]%nat ["q"%string]
       = Some (Ok results)
       /\ results = scenario
       /\ _simple_fusion results = Ok full
       /\ List.length full = 3%nat
       /\ [text_node "a" (Some (9 # 10)); text_node "b" (Some (6 # 10))]
          = firstn 2 full.
Proof.
  assert (H : _aretrieve sqrt_floor (two_sources SIMPLE 2) [0; 1]%nat "q"
              = Some (Ok [text_node "a" (Some (9 # 10));
                          text_node "b" (Some (6 # 10))]))
    by (vm_compute; reflexivity).
  split; [exact H|].
  destruct (@retrieval_returns_at_most_top_k sqrt_floor (two_sources SIMPLE 2)
              [0; 1]%nat "q"
              [text_node "a" (Some (9 # 10)); text_node "b" (Some (6 # 10))])
    as [Ha _].
  - simpl. discriminate.
  - simpl. lia.
  - destruct (Ha H) as [queries [results [full [Hq [Hr [Hf [Ho _]]]]]]].
    assert (Eq : queries = ["q"%string]).
    { vm_compute in Hq. inversion Hq. reflexivity. }
    subst queries.
    assert (Er : results = scenario).
    { vm_compute in Hr. inversion Hr. reflexivity. }
    cbn [two_sources mode] in Hf.
    exists results, full.
    split; [exact Hr|]. split; [exact Er|]. split; [exact Hf|].
    split; [|exact Ho].
    subst results. vm_compute in Hf. inversion Hf. reflexivity.
Defined.

Lemma complete_in_order_failure (R : Type) (tasks : list (Res R))
  (order : list nat) :
  forall slots,
  (exists i e, In i order /\ nth_error tasks i = Some (Err e)) ->
  exists j e', complete_in_order tasks order slots = Err e'
               /\ In j order /\ nth_error tasks j = Some (Err e').
Proof.
  induction order as [|i0 order IH]; intros slots [i [e [Hin Hi]]];
    [contradiction|].
  simpl. destruct (nth_error tasks i0) as [[r|e0]|] eqn:E0.
  - destruct Hin as [Heq|Hin]; [subst i0; congruence|].
    destruct (IH (slot_set i0 r slots)) as [j [e' [H1 [H2 H3]]]]; [eauto|].
    exists j, e'. auto.
  - exists i0, e0. auto.
  - destruct Hin as [Heq|Hin]; [subst i0; congruence|].
    destruct (IH slots) as [j [e' [H1 [H2 H3]]]]; [eauto|].
    exists j, e'. auto.
Qed.

(** X6: when a retrieval call of the fan-out raises, [_aretrieve] (and
    [_retrieve] in its concurrent form) raises the error of one of the
    failed calls under every completion order: no fused result is returned
    from the calls that did succeed. *)
Theorem failed_call_fails_the_retrieval (pow_half : Q -> Q)
  (self : MyQueryFusionRetriever) (order : list nat) (query_str : string)
  (queries : list string) :
  build_queries self query_str = Ok queries ->
  Permutation order (seq 0 (List.length (tasks self queries))) ->
  (exists i e, nth_error (tasks self queries) i = Some (Err e)) ->
  exists j e',
    nth_error (tasks self queries) j = Some (Err e')
    /\ _aretrieve pow_half self order query_str = Some (Err e')
    /\ (use_async self = true ->
        _retrieve pow_half self order query_str = Some (Err e')).
Proof.
  intros Hq Hperm [i [e Hi]].
  assert (Hin : In i order).
  { eapply Permutation_in; [apply Permutation_sym, Hperm|].
    apply in_seq. split; [lia|]. simpl.
    apply nth_error_Some. rewrite Hi. discriminate. }
  destruct (@complete_in_order_failure _ (tasks self queries) order
              (repeat None (List.length (tasks self queries))))
    as [j [e' [H1 [_ H3]]]]; [eauto|].
  exists j, e'. split; [exact H3|].
  assert (Hrun : _run_async_queries self order queries = Some (Err e')).
  { unfold _run_async_queries, gather. rewrite H1. reflexivity. }
  split.
  - unfold _aretrieve. rewrite Hq, Hrun. reflexivity.
  - intros Ha. unfold _retrieve, _run_nested_async_queries.
    rewrite Hq, Ha, Hrun. reflexivity.
Qed.

Lemma failed_call_fails_the_retrieval_witness :
  exists j e',
    nth_error (tasks one_failing ["q"%string]) j = Some (Err e')
    /\ _aretrieve sqrt_floor one_failing [1; 0]%nat "q" = Some (Err e')
    /\ (use_async one_failing = true ->
        _retrieve sqrt_floor one_failing [1; 0]%nat "q" = Some (Err e')).
Proof.
  apply (@failed_call_fails_the_retrieval sqrt_floor one_failing
           [1; 0]%nat "q" ["q"%string]).
  - reflexivity.
  - simpl. apply perm_swap.
  - exists 1%nat, UpstreamError. reflexivity.
Defined.

Section FanOutFacts.
Variable self : MyQueryFusionRetriever.

Let set_kv (results : Results) (kv : QueryTuple * list NodeWithScore) : Results :=
  dict_set query_tuple_eqb (fst kv) (snd kv) results.

Lemma dict_set_fresh (K V : Type) (eqb : K -> K -> bool) (k : K) (v : V)
  (d : Dict K V) :
  (forall a b, eqb a b = true <-> a = b) ->
  ~ In k (keys d) -> dict_set eqb k v d = d ++ [(k, v)].
Proof.
  intros Hspec. induction d as [|[k' v'] d IH]; simpl; intros H; [reflexivity|].
  destruct (eqb k k') eqn:E.
  - apply Hspec in E. subst. exfalso; apply H; left; reflexivity.
  - rewrite IH; [reflexivity | intros C; apply H; right; exact C].
Qed.

Lemma fold_set_fresh (kvs : Results) :
  forall acc,
  NoDup (keys kvs) ->
  (forall k, In k (keys kvs) -> ~ In k (keys acc)) ->
  fold_left set_kv kvs acc = acc ++ kvs.
Proof.
  induction kvs as [|[k v] kvs IH]; intros acc Hnd Hfresh; simpl.
  - rewrite app_nil_r. reflexivity.
  - inversion Hnd as [|? ? Hk Hnd']; subst.
    unfold set_kv at 2. cbn [fst snd].
    rewrite (@dict_set_fresh _ _ query_tuple_eqb k v acc query_tuple_eqb_eq)
      by (apply Hfresh; left; reflexivity).
    rewrite IH; [rewrite <- app_assoc; reflexivity | exact Hnd' |].
    intros k' Hk'. unfold keys. rewrite map_app, in_app_iff. simpl.
    intros [C|[C|[]]].
    + apply (Hfresh k'); [right; exact Hk' | exact C].
    + subst k'. contradiction.
Qed.

Lemma keys_combine (A B : Type) (ks : list A) (vs : list B) :
  List.length ks = List.length vs ->
  map fst (combine ks vs) = ks /\ map snd (combine ks vs) = vs.
Proof.
  revert vs; induction ks as [|k ks IH]; intros [|v vs] H; simpl in *;
    try discriminate; [auto|].
  destruct (IH vs) as [H1 H2]; [lia|]. rewrite H1, H2. auto.
Qed.

Lemma NoDup_map_pair (q : string) (l : list nat) :
  NoDup l -> NoDup (map (fun i => (q, i)) l).
Proof.
  induction 1 as [|i l Hi Hnd IH]; simpl; constructor; [|exact IH].
  intros C. apply in_map_iff in C. destruct C as [j [Hj Hin]].
  inversion Hj; subst. contradiction.
Qed.

Lemma task_queries_nodup (queries : list string) :
  NoDup queries -> NoDup (task_queries self queries).
Proof.
  unfold task_queries. induction 1 as [|q queries Hq Hnd IH]; simpl;
    [constructor|].
  apply NoDup_app.
  - apply NoDup_map_pair, seq_NoDup.
  - exact IH.
  - intros k Hk Hk'. apply in_map_iff in Hk. destruct Hk as [i [Hi _]].
    subst k. apply in_flat_map in Hk'. destruct Hk' as [q' [Hq' Hin]].
    apply in_map_iff in Hin. destruct Hin as [i' [Heq _]].
    inversion Heq; subst. contradiction.
Qed.

Lemma tasks_length (queries : list string) :
  List.length (tasks self queries) = List.length (task_queries self queries).
Proof.
  unfold tasks, task_queries. induction queries as [|q queries IH]; simpl;
    [reflexivity|].
  rewrite !length_app, IH, !length_map, length_seq. reflexivity.
Qed.

(** With pairwise distinct queries and every call answering, the results
    mapping lists the calls' results in task order. *)
Lemma zip_results_distinct (queries : list string)
  (rs : list (list NodeWithScore)) :
  NoDup queries ->
  tasks self queries = map (@Ok _) rs ->
  zip_results (task_queries self queries) rs
  = combine (task_queries self queries) rs
  /\ values (zip_results (task_queries self queries) rs) = rs.
Proof.
  intros Hnd Hrs.
  assert (Hlen : List.length (task_queries self queries) = List.length rs).
  { rewrite <- tasks_length, Hrs, length_map. reflexivity. }
  destruct (keys_combine _ _ Hlen) as [Hk Hv].
  assert (Hz : zip_results (task_queries self queries) rs
               = combine (task_queries self queries) rs).
  { unfold zip_results.
    change (fold_left set_kv (combine (task_queries self queries) rs) []
            = [] ++ combine (task_queries self queries) rs).
    apply fold_set_fresh.
    - unfold keys. rewrite Hk. apply task_queries_nodup; exact Hnd.
    - intros k _ []. }
  split; [exact Hz|]. rewrite Hz. exact Hv.
Qed.

End FanOutFacts.

(** X7: in [NO_FUSION] mode, with pairwise distinct queries and every call
    answering, [_aretrieve] returns the concatenation of the calls' result
    lists in task order, whatever [similarity_top_k] is: as many nodes as
    the result lists hold together. *)
Theorem no_fusion_returns_every_node (pow_half : Q -> Q)
  (self : MyQueryFusionRetriever) (order : list nat) (query_str : string)
  (queries : list string) (rs : list (list NodeWithScore)) :
  mode self = NO_FUSION ->
  build_queries self query_str = Ok queries ->
  NoDup queries ->
  tasks self queries = map (@Ok _) rs ->
  Permutation order (seq 0 (List.length rs)) ->
  _aretrieve pow_half self order query_str = Some (Ok (List.concat rs))
  /\ List.length (List.concat rs) = list_sum (map (@List.length _) rs).
Proof.
  intros Hm Hq Hnd Hrs Hperm. split; [|apply length_concat].
  unfold _aretrieve, _run_async_queries. rewrite Hq, Hrs.
  rewrite (@gather_in_task_order _ rs order Hperm).
  unfold fuse. rewrite Hm. cbn [bind]. unfold _no_fusion.
  destruct (@zip_results_distinct self queries rs Hnd Hrs) as [_ Hv].
  rewrite Hv. reflexivity.
Qed.

Lemma no_fusion_returns_every_node_witness :
  _aretrieve sqrt_floor (two_sources NO_FUSION 1) [1; 0]%nat "q"
  = Some (Ok (List.concat
                [[text_node "a" (Some (9 # 10)); text_node "b" (Some (5 # 10))];
                 [text_node "b" (Some (6 # 10)); text_node "c" (Some (3 # 10))]]))
  /\ List.length (List.concat
                [[text_node "a" (Some (9 # 10)); text_node "b" (Some (5 # 10))];
                 [text_node "b" (Some (6 # 10)); text_node "c" (Some (3 # 10))]])
     = list_sum (map (@List.length _)
                [[text_node "a" (Some (9 # 10)); text_node "b" (Some (5 # 10))];
                 [text_node "b" (Some (6 # 10)); text_node "c" (Some (3 # 10))]]).
Proof.
  apply (@no_fusion_returns_every_node sqrt_floor (two_sources NO_FUSION 1)
           [1; 0]%nat "q" ["q"%string]).
  - reflexivity.
  - reflexivity.
  - repeat constructor; simpl; tauto.
  - reflexivity.
  - simpl. apply perm_swap.
Defined.

Section SyncFacts.
Variable self : MyQueryFusionRetriever.

Let set_kv (results : Results) (kv : QueryTuple * list NodeWithScore) : Results :=
  dict_set query_tuple_eqb (fst kv) (snd kv) results.

Lemma combine_app_eq (A B : Type) (k1 k2 : list A) (v1 v2 : list B) :
  List.length k1 = List.length v1 ->
  combine (k1 ++ k2) (v1 ++ v2) = combine k1 v1 ++ combine k2 v2.
Proof.
  revert v1; induction k1 as [|k k1 IH]; intros [|v v1] H; simpl in *;
    try discriminate; [reflexivity|].
  rewrite IH by lia. reflexivity.
Qed.

Lemma sync_inner_loop (q : string) (rl : list BaseRetriever) :
  forall (start : nat) (acc : Results) (rsq : list (list NodeWithScore)),
  map (fun r => retrieve r q) rl = map (@Ok _) rsq ->
  for_each (fun ir results =>
              let* r := retrieve (snd ir) q in
              Ok (dict_set query_tuple_eqb (q, fst ir) r results))
           (combine (seq start (List.length rl)) rl) acc
  = Ok (fold_left set_kv
          (combine (map (fun i => (q, i)) (seq start (List.length rl))) rsq)
          acc).
Proof.
  induction rl as [|r rl IH]; intros start acc [|r0 rsq] H; simpl in *;
    try discriminate; [reflexivity|].
  inversion H as [[Hr Hrest]]. rewrite Hr. cbn [bind].
  rewrite (IH (S start) _ rsq Hrest). reflexivity.
Qed.

Lemma sync_outer_loop (queries : list string) :
  forall (acc : Results) (rs : list (list NodeWithScore)),
  flat_map (fun q => map (fun r => retrieve r q) (_retrievers self)) queries
  = map (@Ok _) rs ->
  for_each (fun q results =>
              for_each (fun ir results =>
                          let* r := retrieve (snd ir) q in
                          Ok (dict_set query_tuple_eqb (q, fst ir) r results))
                       (combine (seq 0 (List.length (_retrievers self)))
                                (_retrievers self))
                       results)
           queries acc
  = Ok (fold_left set_kv (combine (task_queries self queries) rs) acc).
Proof.
  induction queries as [|q queries IH]; intros acc rs H.
  - destruct rs; [reflexivity | discriminate].
  - cbn [flat_map] in H. symmetry in H.
    apply map_eq_app in H. destruct H as [rs1 [rs2 [Hrs [H1 H2]]]].
    subst rs. cbn [for_each].
    rewrite (@sync_inner_loop q (_retrievers self) 0 acc rs1) by (symmetry; exact H1).
    cbn [bind]. rewrite (IH _ rs2) by (symmetry; exact H2).
    unfold task_queries. cbn [flat_map].
    rewrite combine_app_eq, fold_left_app; [reflexivity|].
    rewrite length_map, length_seq.
    apply (f_equal (@List.length _)) in H1. rewrite !length_map in H1.
    symmetry. exact H1.
Qed.

(** X8: when the two entry points of every retriever agree and every
    call answers, the sequential runner builds the results mapping that the
    concurrent runner builds under any completion order, so [_retrieve]
    returns what [_aretrieve] returns whether or not [use_async] is set. *)
Theorem sequential_and_concurrent_runs_agree (pow_half : Q -> Q)
  (order : list nat) (query_str : string) (queries : list string) :
  Forall entry_points_agree (_retrievers self) ->
  build_queries self query_str = Ok queries ->
  Forall (fun t => is_ok t = true) (tasks self queries) ->
  Permutation order (seq 0 (List.length (tasks self queries))) ->
  _run_async_queries self order queries
  = Some (_run_sync_queries self queries)
  /\ _retrieve pow_half self order query_str
     = _aretrieve pow_half self order query_str.
Proof.
  intros Hagree Hq Hok Hperm.
  destruct (all_ok_results Hok) as [rs Hrs].
  rewrite Hrs, length_map in Hperm.
  assert (Hsync : flat_map (fun q => map (fun r => retrieve r q)
                                         (_retrievers self)) queries
                  = map (@Ok _) rs).
  { rewrite <- Hrs. unfold tasks. apply flat_map_ext. intros q.
    apply map_ext_in. intros r Hr.
    rewrite Forall_forall in Hagree. apply (Hagree r Hr). }
  assert (Hrun : _run_async_queries self order queries
                 = Some (_run_sync_queries self queries)).
  { unfold _run_async_queries, _run_sync_queries.
    rewrite Hrs, (@gather_in_task_order _ rs order Hperm).
    rewrite (@sync_outer_loop queries [] rs Hsync). reflexivity. }
  split; [exact Hrun|].
  unfold _retrieve, _aretrieve, _run_nested_async_queries.
  rewrite Hq, Hrun. destruct (use_async self); reflexivity.
Qed.

End SyncFacts.

Lemma sequential_and_concurrent_runs_agree_witness :
  _run_async_queries (two_sources SIMPLE 2) [1; 0]%nat ["q"%string]
  = Some (_run_sync_queries (two_sources SIMPLE 2) ["q"%string])
  /\ _retrieve sqrt_floor (two_sources SIMPLE 2) [1; 0]%nat "q"
     = _aretrieve sqrt_floor (two_sources SIMPLE 2) [1; 0]%nat "q".
Proof.
  apply (@sequential_and_concurrent_runs_agree (two_sources SIMPLE 2)
           sqrt_floor [1; 0]%nat "q" ["q"%string]).
  - repeat constructor.
  - reflexivity.
  - repeat constructor.
  - simpl. apply perm_swap.
Defined.

(** ** Reciprocal rank fusion, further *)

Lemma map_res_In (A B : Type) (f : A -> Res B) (l : list A) :
  forall out, map_res f l = Ok out ->
  forall m, In m out -> exists x, In x l /\ f x = Ok m.
Proof.
  induction l as [|a l IH]; simpl; intros out H m Hm.
  - inversion H; subst. contradiction.
  - destruct (f a) as [b|] eqn:Ea; [|discriminate]. cbn [bind] in H.
    destruct (map_res f l) as [bs|] eqn:El; [|discriminate].
    cbn [bind] in H. inversion H; subst out.
    destruct Hm as [Hm|Hm].
    + subst b. exists a. auto.
    + destruct (IH bs eq_refl m Hm) as [x [Hx Hfx]]. exists x. auto.
Qed.

Lemma rrf_text_to_node_step (rank : nat) (n : NodeWithScore) (st : RRFState) :
  snd (rrf_step rank n st) = dict_set String.eqb (content n) n (snd st).
Proof. destruct st as [fused t2n]. reflexivity. Qed.

Lemma rrf_text_to_node_inner (l : list NodeWithScore) :
  forall rank st,
  snd (rrf_inner rank l st)
  = fold_left (fun d n => dict_set String.eqb (content n) n d) l (snd st).
Proof.
  induction l as [|n l IH]; intros rank st; simpl; [reflexivity|].
  rewrite IH, rrf_text_to_node_step. reflexivity.
Qed.

Lemma rrf_text_to_node_outer (ls : list (list NodeWithScore)) :
  forall st,
  snd (rrf_outer ls st)
  = fold_left (fun d n => dict_set String.eqb (content n) n d)
              (List.concat (map sort_by_score_or_zero ls)) (snd st).
Proof.
  induction ls as [|l ls IH]; intros st; simpl; [reflexivity|].
  rewrite IH, fold_left_app, rrf_text_to_node_inner. reflexivity.
Qed.

(** [text_to_node] maps a content to the last node met with it. *)
Lemma text_to_node_last (l : list NodeWithScore) :
  forall seen d,
  (forall t, dict_get String.eqb t d = find (has_content t) (rev seen)) ->
  forall t,
  dict_get String.eqb t
    (fold_left (fun d n => dict_set String.eqb (content n) n d) l d)
  = find (has_content t) (rev (seen ++ l)).
Proof.
  induction l as [|n l IH]; intros seen d H t; simpl.
  - rewrite app_nil_r. apply H.
  - replace (seen ++ n :: l) with ((seen ++ [n]) ++ l)
      by (rewrite <- app_assoc; reflexivity).
    apply IH. intros t'. rewrite rev_app_distr. simpl.
    unfold has_content at 1. destruct (String.eqb (content n) t') eqn:E.
    + apply String.eqb_eq in E. subst t'.
      apply (dict_get_set_same String.eqb String.eqb_eq).
    + rewrite (dict_get_set_other String.eqb String.eqb_eq); [apply H|].
      intros C. subst t'. rewrite String.eqb_refl in E. discriminate.
Qed.

Lemma rrf_output (results : Results) :
  exists out,
    _reciprocal_rerank_fusion results = Ok out
    /\ forall m, In m out ->
         exists s n,
           score m = Some s
           /\ s == rr_total (content m) (values results)
           /\ In (content m) (map content (ranked_nodes_of results))
           /\ find (has_content (content m)) (rev (ranked_nodes_of results))
              = Some n
           /\ node m = node n.
Proof.
  unfold _reciprocal_rerank_fusion.
  pose proof (rrf_outer_inv (values results) rrf_inv_init) as Hinv.
  pose proof (rrf_text_to_node_outer (values results) ([], [])) as Ht2n.
  destruct (rrf_outer (values results) ([], [])) as [fused t2n].
  destruct Hinv as [H1 H2 H3 H4 H5 H6]; cbn [fst snd] in *.
  assert (Hlast : forall t, dict_get String.eqb t t2n
                            = find (has_content t) (rev (ranked_nodes_of results))).
  { intros t. rewrite Ht2n. unfold ranked_nodes_of.
    apply (@text_to_node_last _ [] []). intros t'. reflexivity. }
  assert (Hperm : Permutation (sorted_desc snd fused) fused)
    by apply sorted_desc_perm.
  destruct (@rrf_adjust_all t2n (sorted_desc snd fused)) as [out [Ho _]].
  { intros it Hit. rewrite <- H1. apply in_map.
    eapply Permutation_in; [exact Hperm | exact Hit]. }
  { exact H6. }
  exists out. split; [exact Ho|].
  intros m Hm.
  destruct (map_res_In _ _ Ho m Hm) as [[t v] [Hin Hf]].
  unfold rrf_adjust, dict_lookup in Hf. cbn [fst snd] in Hf.
  destruct (dict_get String.eqb t t2n) as [n|] eqn:En; [|discriminate].
  cbn [bind] in Hf. inversion Hf; subst m; clear Hf.
  assert (Hc : content (set_score n (Some v)) = t) by (apply (H6 _ _ En)).
  rewrite Hc. exists v, n.
  apply (Permutation_in _ Hperm) in Hin.
  assert (Hg : dict_get String.eqb t fused = Some v)
    by (apply (In_dict_get String.eqb String.eqb_eq); assumption).
  split; [reflexivity|]. split; [rewrite (H4 _ _ Hg); ring|].
  split; [|split; [rewrite <- Hlast; exact En | reflexivity]].
  assert (Hk : In t (keys fused)) by (apply (in_map fst) in Hin; exact Hin).
  apply H3 in Hk. destruct Hk as [[]|[l [Hl Ht]]].
  unfold ranked_nodes_of. rewrite concat_map. apply in_concat.
  exists (map content (sort_by_score_or_zero l)). split.
  - apply in_map, in_map. exact Hl.
  - eapply Permutation_in; [|exact Ht].
    apply Permutation_map, Permutation_sym, sorted_desc_perm.
Qed.

(** X9: reciprocal rank fusion never raises, and the node it returns for
    a content carries the payload of the last node of that content it met
    (the lists taken in mapping order, each ranked by score), where simple
    and relative score fusion keep the first one. *)
Theorem reciprocal_rank_fusion_keeps_last_node (results : Results) :
  exists out,
    _reciprocal_rerank_fusion results = Ok out
    /\ forall m, In m out ->
         exists n,
           find (has_content (content m)) (rev (ranked_nodes_of results))
           = Some n
           /\ node m = node n.
Proof.
  destruct (rrf_output results) as [out [Ho H]].
  exists out. split; [exact Ho|].
  intros m Hm. destruct (H m Hm) as [s [n [_ [_ [_ [Hf Hn]]]]]].
  exists n. auto.
Qed.

Lemma reciprocal_bounds (rank : nat) :
  0 < reciprocal rank /\ reciprocal rank <= 1 / 60.
Proof.
  unfold reciprocal, rrf_k.
  assert (Hpos : 0 <= inject_Z (Z.of_nat rank)).
  { rewrite <- (Zle_Qle 0). apply Nat2Z.is_nonneg. }
  set (r := inject_Z (Z.of_nat rank)) in *.
  split.
  - apply Qlt_shift_div_l; lra.
  - apply Qle_shift_div_r; [lra|].
    setoid_replace (1 / 60 * (r + 60)) with (1 + r / 60) by field.
    assert (0 <= r / 60) by (apply Qle_shift_div_l; lra). lra.
Qed.

Lemma occurrences_cons (t : string) (n : NodeWithScore)
  (l : list NodeWithScore) :
  inject_Z (Z.of_nat (occurrences t (n :: l)))
  == (if String.eqb t (content n) then 1 else 0)
     + inject_Z (Z.of_nat (occurrences t l)).
Proof.
  unfold occurrences. simpl. unfold has_content at 1.
  rewrite String.eqb_sym. destruct (String.eqb t (content n)).
  - cbn [List.length]. rewrite Nat2Z.inj_succ. unfold Z.succ.
    rewrite inject_Z_plus. ring.
  - ring.
Qed.

Lemma rr_contrib_bounds (t : string) (l : list NodeWithScore) :
  forall rank,
  0 <= rr_contrib t rank l
  /\ rr_contrib t rank l <= inject_Z (Z.of_nat (occurrences t l)) * (1 / 60)
  /\ (In t (map content l) -> 0 < rr_contrib t rank l).
Proof.
  induction l as [|n l IH]; intros rank; simpl.
  - split; [apply Qle_refl|]. split; [unfold occurrences, Qle; simpl; lia|].
    contradiction.
  - destruct (IH (S rank)) as [H1 [H2 H3]].
    destruct (reciprocal_bounds rank) as [Hp Hb].
    rewrite occurrences_cons.
    destruct (String.eqb t (content n)) eqn:E.
    + split; [lra|]. split; [lra|]. intros _. lra.
    + split; [lra|]. split; [lra|].
      intros [C|C]; [|specialize (H3 C); lra].
      subst t. rewrite String.eqb_refl in E. discriminate.
Qed.

Lemma occurrences_perm (t : string) (l l' : list NodeWithScore) :
  Permutation l l' -> occurrences t l = occurrences t l'.
Proof.
  unfold occurrences. induction 1 as [|x l l' _ IH|x y l|l l' l'' _ IH1 _ IH2];
    simpl.
  - reflexivity.
  - destruct (has_content t x); simpl; rewrite IH; reflexivity.
  - destruct (has_content t x), (has_content t y); reflexivity.
  - rewrite IH1. exact IH2.
Qed.

Lemma occurrences_app (t : string) (l l' : list NodeWithScore) :
  occurrences t (l ++ l') = (occurrences t l + occurrences t l')%nat.
Proof.
  unfold occurrences. rewrite filter_app, length_app. reflexivity.
Qed.

Lemma rr_total_bounds (t : string) (ls : list (list NodeWithScore)) :
  0 <= rr_total t ls
  /\ rr_total t ls
     <= inject_Z (Z.of_nat (occurrences t (List.concat ls))) * (1 / 60)
  /\ (In t (map content (List.concat (map sort_by_score_or_zero ls))) ->
      0 < rr_total t ls).
Proof.
  induction ls as [|l ls [H1 [H2 H3]]]; simpl.
  - split; [apply Qle_refl|]. split; [unfold occurrences, Qle; simpl; lia|].
    contradiction.
  - destruct (rr_contrib_bounds t (sort_by_score_or_zero l) 0) as [C1 [C2 C3]].
    rewrite (@occurrences_perm t (sort_by_score_or_zero l) l) in C2
      by apply sorted_desc_perm.
    rewrite occurrences_app, Nat2Z.inj_add, inject_Z_plus.
    split; [lra|]. split; [lra|].
    rewrite map_app, in_app_iff. intros [C|C].
    + specialize (C3 C). lra.
    + specialize (H3 C). lra.
Qed.

(** X10: every score assigned by reciprocal rank fusion is positive and at
    most 1/60 times the number of source nodes of that content. *)
Theorem reciprocal_rank_scores_are_bounded (results : Results) :
  exists out,
    _reciprocal_rerank_fusion results = Ok out
    /\ forall m, In m out ->
         exists s,
           score m = Some s
           /\ 0 < s
           /\ s <= inject_Z (Z.of_nat (occurrences (content m)
                                         (all_nodes_of results)))
                   * (1 / 60).
Proof.
  destruct (rrf_output results) as [out [Ho H]].
  exists out. split; [exact Ho|].
  intros m Hm. destruct (H m Hm) as [s [n [Hs [Hv [Hin _]]]]].
  exists s. split; [exact Hs|].
  destruct (rr_total_bounds (content m) (values results)) as [_ [H2 H3]].
  unfold ranked_nodes_of in Hin. specialize (H3 Hin).
  unfold all_nodes_of. rewrite Hv. split; [exact H3 | exact H2].
Qed.

(** ** Recursive expansion, further *)

Section RecursiveFacts.
Variable self : MyQueryFusionRetriever.
Variable query_str : string.

Lemma recursive_loop_acc (nodes : list NodeWithScore) :
  forall acc,
  for_each (recursive_step self query_str) nodes acc
  = let* tail := for_each (recursive_step self query_str) nodes [] in
    Ok (acc ++ tail).
Proof.
  induction nodes as [|n nodes IH]; intros acc; simpl.
  - rewrite app_nil_r. reflexivity.
  - unfold recursive_step at 1 3.
    destruct (node_class (node n)) as [| |index_id obj];
      try (cbn [bind app]; rewrite (IH (acc ++ [n])), (IH [n]);
           destruct (for_each (recursive_step self query_str) nodes []);
           cbn [bind]; [rewrite <- app_assoc; reflexivity | reflexivity]).
    destruct (nested_object self index_id obj) as [o|].
    + destruct (_aretrieve_from_object self o query_str (score_or 1 (score n)))
        as [sub|]; cbn [bind app]; [|reflexivity].
      rewrite (IH (acc ++ sub)), (IH sub).
      destruct (for_each (recursive_step self query_str) nodes []);
        cbn [bind]; [rewrite <- app_assoc; reflexivity | reflexivity].
    + cbn [bind app]. rewrite (IH (acc ++ [n])), (IH [n]).
      destruct (for_each (recursive_step self query_str) nodes []);
        cbn [bind]; [rewrite <- app_assoc; reflexivity | reflexivity].
Qed.

(** X11: recursive expansion works node by node and in order: expanding
    two lists one after the other gives the expansion of the first followed
    by the expansion of the second, and the first error met is raised. *)
Theorem recursive_retrieval_splices_in_order (a b : list NodeWithScore) :
  _ahandle_recursive_retrieval self query_str (a ++ b)
  = let* xs := _ahandle_recursive_retrieval self query_str a in
    let* ys := _ahandle_recursive_retrieval self query_str b in
    Ok (xs ++ ys).
Proof.
  unfold _ahandle_recursive_retrieval.
  assert (H : forall acc,
             for_each (recursive_step self query_str) (a ++ b) acc
             = let* xs := for_each (recursive_step self query_str) a acc in
               for_each (recursive_step self query_str) b xs).
  { induction a as [|n a IH]; intros acc; simpl; [reflexivity|].
    destruct (recursive_step self query_str n acc); cbn [bind];
      [apply IH | reflexivity]. }
  rewrite H.
  destruct (for_each (recursive_step self query_str) a []) as [xs|];
    cbn [bind]; [|reflexivity].
  apply recursive_loop_acc.
Qed.

(** X12: nodes without a nested object come back unchanged, in their
    order and with their scores, whatever those scores are; no nested
    retrieval is made. *)
Theorem recursive_retrieval_keeps_leaves (nodes : list NodeWithScore) :
  Forall (is_leaf self) nodes ->
  _ahandle_recursive_retrieval self query_str nodes = Ok nodes.
Proof.
  unfold _ahandle_recursive_retrieval.
  assert (H : forall acc,
             Forall (is_leaf self) nodes ->
             for_each (recursive_step self query_str) nodes acc
             = Ok (acc ++ nodes)).
  { induction nodes as [|n nodes IH]; intros acc Hl; simpl.
    - rewrite app_nil_r. reflexivity.
    - inversion Hl as [|? ? Hn Hrest]; subst.
      assert (Hstep : recursive_step self query_str n acc = Ok (acc ++ [n])).
      { unfold recursive_step, is_leaf in *.
        destruct (node_class (node n)); try reflexivity.
        rewrite Hn. reflexivity. }
      rewrite Hstep. cbn [bind]. rewrite (IH _ Hrest), <- app_assoc.
      reflexivity. }
  intros Hl. apply (H [] Hl).
Qed.

End RecursiveFacts.

Lemma recursive_retrieval_keeps_leaves_witness :
  _ahandle_recursive_retrieval (two_sources NO_FUSION 2) "q"
    [text_node "plain" (Some 0); image_node "i1" None]
  = Ok [text_node "plain" (Some 0); image_node "i1" None].
Proof.
  apply (@recursive_retrieval_keeps_leaves (two_sources NO_FUSION 2) "q").
  repeat constructor.
Defined.

(** * Further properties of the partitioner and the synthesizer *)

Lemma existsb_flat_map (A B : Type) (p : B -> bool) (f : A -> list B)
  (l : list A) :
  existsb p (flat_map f l) = existsb (fun x => existsb p (f x)) l.
Proof.
  induction l as [|a l IH]; simpl; [reflexivity|].
  rewrite existsb_app, IH. reflexivity.
Qed.

Lemma promoted_unscored (urls : list (option string)) (o : NodeWithScore) :
  existsb unscored (promoted urls o)
  = unscored o
    && negb (Nat.eqb (List.length
                        (filter (fun u => negb (url_in u urls))
                                (image_refs (md_image_url (node o))))) 0).
Proof.
  unfold promoted.
  induction (filter (fun u => negb (url_in u urls))
                    (image_refs (md_image_url (node o)))) as [|u us IH];
    simpl.
  - rewrite andb_false_r. reflexivity.
  - unfold unscored at 1. simpl. fold (unscored o).
    destruct (unscored o); [reflexivity|]. simpl in *. exact IH.
Qed.

Lemma no_unscored_all_scored (l : list NodeWithScore) :
  existsb unscored l = false -> Forall (fun n => score n <> None) l.
Proof.
  induction l as [|n l IH]; simpl; intros H; constructor.
  - apply orb_false_iff in H. destruct H as [H _].
    unfold unscored in H. destruct (score n); [discriminate | discriminate H].
  - apply IH. apply orb_false_iff in H. apply H.
Qed.

Lemma discount_unscored (l : list NodeWithScore) :
  existsb unscored l = true -> map_res discount l = Err TypeError.
Proof.
  intros H. apply map_res_uniform_error.
  - intros n _. unfold discount.
    destruct (score n); cbn [py_arith bind]; [left; eauto | right; reflexivity].
  - apply existsb_exists in H. destruct H as [n [Hn Hu]].
    exists n. split; [exact Hn|]. unfold discount, unscored in *.
    destruct (score n); [discriminate | reflexivity].
Qed.

Lemma sort_then_discount (l : list NodeWithScore) :
  (let* sorted := sort_by_score l in map_res discount sorted)
  = if existsb unscored l then Err TypeError
    else Ok (map (fun n => set_score n (Some (score_key n * TEXT_IMAGE_WEIGHT)))
                 (sorted_desc score_key l)).
Proof.
  destruct (existsb unscored l) eqn:E.
  - unfold sort_by_score. fold unscored. rewrite E, andb_true_r.
    destruct (2 <=? List.length l)%nat; [reflexivity|]. cbn [bind].
    apply discount_unscored.
    apply existsb_exists in E. destruct E as [n [Hn Hu]].
    apply existsb_exists. exists n. split; [|exact Hu].
    apply sorted_desc_In. exact Hn.
  - pose proof (no_unscored_all_scored _ E) as Hsc.
    rewrite (sort_by_score_scored Hsc). cbn [bind].
    apply discount_scored.
    eapply Permutation_Forall; [apply Permutation_sym, sorted_desc_perm|].
    exact Hsc.
Qed.

Lemma existsb_pointwise (A : Type) (p q : A -> bool) (l : list A) :
  (forall x, p x = q x) -> existsb p l = existsb q l.
Proof.
  intros H. induction l as [|a l IH]; simpl; [reflexivity|].
  rewrite H, IH. reflexivity.
Qed.

(** X13: the partitioner raises [TypeError] exactly when two or more
    image nodes are given and one of them has no score, or when a text node
    without a score has an image reference to promote; otherwise it returns,
    the text nodes being the input's text nodes in input order. *)
Theorem partition_raises_exactly_on_unscored (nodes : list NodeWithScore) :
  if unscored_image_among_several nodes || unscored_promotion nodes
  then _get_image_and_text_nodes nodes = Err TypeError
  else exists imgs,
         _get_image_and_text_nodes nodes = Ok (imgs, filter is_text nodes).
Proof.
  unfold _get_image_and_text_nodes.
  rewrite partition_loop. cbn [image_nodes text_image_nodes text_nodes app].
  set (urls := collect_image_urls nodes).
  set (raw := flat_map (promoted urls) (filter is_text nodes)).
  assert (Hraw : existsb unscored raw = unscored_promotion nodes).
  { unfold raw, unscored_promotion. rewrite existsb_flat_map.
    apply existsb_pointwise. intros o. apply promoted_unscored. }
  assert (Hnat : sort_by_score (filter is_image nodes)
                 = if unscored_image_among_several nodes then Err TypeError
                   else Ok (sorted_desc score_key (filter is_image nodes)))
    by reflexivity.
  rewrite Hnat.
  destruct (unscored_image_among_several nodes); [reflexivity|].
  cbn [bind orb].
  pose proof (sort_then_discount raw) as Hsd. rewrite Hraw in Hsd.
  destruct (unscored_promotion nodes).
  - destruct (sort_by_score raw) as [sorted|]; cbn [bind] in *;
      [rewrite Hsd; reflexivity | inversion Hsd; reflexivity].
  - destruct (sort_by_score raw) as [sorted|]; cbn [bind] in *;
      [|discriminate]. rewrite Hsd. cbn [bind]. eexists. reflexivity.
Qed.

Lemma StronglySorted_app_cross (A : Type) (R : A -> A -> Prop) (a b : list A) :
  StronglySorted R (a ++ b) -> forall x y, In x a -> In y b -> R x y.
Proof.
  induction a as [|h a IH]; simpl; intros Hs x y Hx Hy; [contradiction|].
  inversion Hs as [|? ? Hrest Hh]; subst.
  destruct Hx as [Hx|Hx].
  - subst h. rewrite Forall_forall in Hh. apply Hh.
    apply in_app_iff. right. exact Hy.
  - apply IH; assumption.
Qed.

Lemma partition_result (nodes : list NodeWithScore) :
  _get_image_and_text_nodes nodes
  = if unscored_image_among_several nodes
       || existsb unscored (flat_map (promoted (collect_image_urls nodes))
                                     (filter is_text nodes))
    then Err TypeError
    else Ok (firstn IMAGE_MAX_PIECES
               (sorted_desc score_key (filter is_image nodes)
                ++ map (fun n => set_score n (Some (score_key n * TEXT_IMAGE_WEIGHT)))
                       (sorted_desc score_key
                          (flat_map (promoted (collect_image_urls nodes))
                                    (filter is_text nodes)))),
             filter is_text nodes).
Proof.
  unfold _get_image_and_text_nodes.
  rewrite partition_loop. cbn [image_nodes text_image_nodes text_nodes app].
  set (raw := flat_map (promoted (collect_image_urls nodes)) (filter is_text nodes)).
  assert (Hnat : sort_by_score (filter is_image nodes)
                 = if unscored_image_among_several nodes then Err TypeError
                   else Ok (sorted_desc score_key (filter is_image nodes)))
    by reflexivity.
  rewrite Hnat.
  destruct (unscored_image_among_several nodes); [reflexivity|].
  cbn [bind orb].
  pose proof (sort_then_discount raw) as Hsd.
  destruct (existsb unscored raw).
  - destruct (sort_by_score raw) as [sorted|]; cbn [bind] in *;
      [rewrite Hsd; reflexivity | inversion Hsd; reflexivity].
  - destruct (sort_by_score raw) as [sorted|]; cbn [bind] in *;
      [|discriminate]. rewrite Hsd. reflexivity.
Qed.

(** X14: with five or more image nodes in the input, no synthesized image
    node is returned, whatever its score: the image list is the five
    highest-scored image nodes of the input, and no image node left out
    has a higher score than one kept. *)
Theorem five_images_leave_no_room (nodes imgs txts : list NodeWithScore) :
  (5 <= List.length (filter is_image nodes))%nat ->
  _get_image_and_text_nodes nodes = Ok (imgs, txts) ->
  imgs = firstn 5 (sorted_desc score_key (filter is_image nodes))
  /\ List.length imgs = 5%nat
  /\ (forall m, In m imgs -> In m nodes /\ is_image m = true)
  /\ (forall kept left_out,
        In kept imgs ->
        In left_out (skipn 5 (sorted_desc score_key (filter is_image nodes))) ->
        score_key left_out <= score_key kept).
Proof.
  intros Hfive Hp. rewrite partition_result in Hp.
  destruct (unscored_image_among_several nodes || _); [discriminate|].
  unfold IMAGE_MAX_PIECES in Hp. rewrite firstn_app, sorted_desc_length in Hp.
  replace (5 - List.length (filter is_image nodes))%nat with 0%nat in Hp by lia.
  rewrite firstn_O, app_nil_r in Hp.
  set (natives := sorted_desc score_key (filter is_image nodes)) in *.
  assert (Himgs : imgs = firstn 5 natives) by congruence.
  clear Hp. rewrite Himgs.
  assert (Hlen : List.length natives = List.length (filter is_image nodes))
    by apply sorted_desc_length.
  split; [reflexivity|]. split; [|split].
  - rewrite length_firstn. lia.
  - intros m Hm.
    assert (Hm' : In m natives)
      by (rewrite <- (firstn_skipn 5 natives); apply in_or_app; left; exact Hm).
    apply sorted_desc_In in Hm'. apply filter_In in Hm'. exact Hm'.
  - intros kept left_out Hk Hl.
    pose proof (sorted_desc_sorted score_key (filter is_image nodes)) as Hs.
    fold natives in Hs. rewrite <- (firstn_skipn 5 natives) in Hs.
    apply (StronglySorted_app_cross _ _ Hs kept left_out Hk Hl).
Qed.

Lemma five_images_leave_no_room_witness :
  [image_node "i1" (Some (9 # 10)); image_node "i2" (Some (8 # 10));
   image_node "i3" (Some (7 # 10)); image_node "i4" (Some (6 # 10));
   image_node "i5" (Some (5 # 10))]
  = firstn 5 (sorted_desc score_key (filter is_image seven_images)).
Proof.
  apply (@five_images_leave_no_room seven_images _
           [text_with_images "t" ["u"]%string (Some 1)]).
  - simpl. lia.
  - vm_compute. reflexivity.
Defined.

Lemma url_in_In (u : string) (l : list (option string)) :
  url_in u l = true <-> In (Some u) l.
Proof.
  unfold url_in. rewrite existsb_exists. split.
  - intros [[x|] [Hx He]]; simpl in He; [|discriminate].
    apply String.eqb_eq in He. subst x. exact Hx.
  - intros H. exists (Some u). split; [exact H|]. simpl. apply String.eqb_refl.
Qed.

Lemma In_collect_image_urls (u : option string) (l : list NodeWithScore) :
  In u (collect_image_urls l)
  <-> exists n, In n l /\ node_class (node n) = ImageNode u.
Proof.
  unfold collect_image_urls. rewrite in_flat_map. split.
  - intros [n [Hn Hu]]. exists n. split; [exact Hn|].
    destruct (node_class (node n)); simpl in Hu; try contradiction.
    destruct Hu as [Hu|[]]. subst. reflexivity.
  - intros [n [Hn Hc]]. exists n. split; [exact Hn|]. rewrite Hc.
    left. reflexivity.
Qed.

Lemma filter_keeps_all (A : Type) (p : A -> bool) (l : list A) :
  Forall (fun x => p x = true) l -> filter p l = l.
Proof.
  induction 1 as [|x l Hx _ IH]; simpl; [reflexivity|].
  rewrite Hx, IH. reflexivity.
Qed.

Lemma filter_drops_all (A : Type) (p : A -> bool) (l : list A) :
  Forall (fun x => p x = false) l -> filter p l = [].
Proof.
  induction 1 as [|x l Hx _ IH]; simpl; [reflexivity|].
  rewrite Hx, IH. reflexivity.
Qed.

Lemma flat_map_nil (A B : Type) (f : A -> list B) (l : list A) :
  (forall x, In x l -> f x = []) -> flat_map f l = [].
Proof.
  induction l as [|a l IH]; simpl; intros H; [reflexivity|].
  rewrite (H a (or_introl eq_refl)), IH; [reflexivity|].
  intros x Hx. apply H. right. exact Hx.
Qed.

Lemma filter_nil_when (A : Type) (p : A -> bool) (l : list A) :
  (forall x, In x l -> p x = false) -> filter p l = [].
Proof.
  intros H. apply filter_drops_all. apply Forall_forall. exact H.
Qed.

Lemma all_scored_no_unscored (l : list NodeWithScore) :
  Forall (fun n => score n <> None) l -> existsb unscored l = false.
Proof.
  induction 1 as [|n l Hn _ IH]; simpl; [reflexivity|].
  rewrite IH. unfold unscored. destruct (score n); [reflexivity | contradiction].
Qed.

Lemma expected_synthesized_length (nodes : list NodeWithScore) :
  List.length (expected_synthesized nodes)
  = List.length (flat_map (promoted (collect_image_urls nodes))
                          (filter is_text nodes)).
Proof.
  unfold expected_synthesized. rewrite !length_flat_map. f_equal.
  apply map_ext. intros o. unfold promoted, references_to_promote.
  rewrite !length_map. reflexivity.
Qed.

(** X15: partitioning again the image nodes followed by the text nodes
    that the partitioner returned keeps the text nodes and synthesizes no
    further image node: when every score is set and nothing was cut (at most
    five images in all), the images come back as one list sorted by score,
    the promoted images no longer behind the native ones and not discounted
    a second time. *)
Theorem partition_of_a_partition (nodes imgs txts : list NodeWithScore) :
  all_scored nodes ->
  (List.length (filter is_image nodes)
   + List.length (expected_synthesized nodes) <= 5)%nat ->
  _get_image_and_text_nodes nodes = Ok (imgs, txts) ->
  _get_image_and_text_nodes (imgs ++ txts)
  = Ok (sorted_desc score_key imgs, txts).
Proof.
  intros Hsc Hfit Hp. rewrite partition_result in Hp.
  destruct (unscored_image_among_several nodes || _); [discriminate|].
  set (urls := collect_image_urls nodes) in *.
  set (raw := flat_map (promoted urls) (filter is_text nodes)) in *.
  set (N := sorted_desc score_key (filter is_image nodes)) in *.
  set (S := map (fun n => set_score n (Some (score_key n * TEXT_IMAGE_WEIGHT)))
                (sorted_desc score_key raw)) in *.
  assert (HlenS : List.length S = List.length raw).
  { unfold S. rewrite length_map. apply sorted_desc_length. }
  assert (HlenN : List.length N = List.length (filter is_image nodes))
    by apply sorted_desc_length.
  rewrite expected_synthesized_length in Hfit. fold urls in Hfit. fold raw in Hfit.
  rewrite firstn_all2 in Hp
    by (unfold IMAGE_MAX_PIECES; rewrite length_app; lia).
  assert (Himgs : imgs = N ++ S) by congruence.
  assert (Htxts : txts = filter is_text nodes) by congruence.
  clear Hp.
  assert (HN : forall n, In n N -> In n nodes /\ is_image n = true).
  { intros n Hn. apply sorted_desc_In in Hn. apply filter_In in Hn. exact Hn. }
  assert (HS : forall m, In m S ->
             exists o u, In o (filter is_text nodes)
                         /\ In u (image_refs (md_image_url (node o)))
                         /\ url_in u urls = false
                         /\ node m = node (text_image_node o u)).
  { intros m Hm. unfold S in Hm. apply in_map_iff in Hm.
    destruct Hm as [r [Hr Hin]]. apply sorted_desc_In in Hin.
    unfold raw in Hin. apply in_flat_map in Hin. destruct Hin as [o [Ho Hin]].
    unfold promoted in Hin. apply in_map_iff in Hin.
    destruct Hin as [u [Hu Hin]]. apply filter_In in Hin.
    destruct Hin as [Hin Hnot]. apply negb_true_iff in Hnot.
    exists o, u. subst m r. auto. }
  assert (Himg_all : Forall (fun x => is_image x = true) imgs).
  { rewrite Himgs. apply Forall_forall. intros x Hx.
    apply in_app_iff in Hx. destruct Hx as [Hx|Hx].
    - apply HN. exact Hx.
    - destruct (HS x Hx) as [o [u [_ [_ [_ Hnode]]]]].
      unfold is_image. rewrite Hnode. reflexivity. }
  assert (Htxt_all : Forall (fun x => is_image x = false) txts).
  { rewrite Htxts. apply Forall_forall. intros x Hx.
    apply filter_In in Hx. destruct Hx as [_ Hx]. unfold is_text in Hx.
    apply negb_true_iff in Hx. exact Hx. }
  assert (Hfi : filter is_image (imgs ++ txts) = imgs).
  { rewrite filter_app, (filter_keeps_all _ Himg_all),
            (filter_drops_all _ Htxt_all), app_nil_r. reflexivity. }
  assert (Hft : filter is_text (imgs ++ txts) = txts).
  { rewrite filter_app. unfold is_text.
    rewrite filter_drops_all, filter_keeps_all; [reflexivity | |].
    - eapply Forall_impl; [|exact Htxt_all].
      intros x Hx. simpl in Hx. rewrite Hx. reflexivity.
    - eapply Forall_impl; [|exact Himg_all].
      intros x Hx. simpl in Hx. rewrite Hx. reflexivity. }
  assert (Hscored : Forall (fun n => score n <> None) imgs).
  { rewrite Himgs. apply Forall_forall. intros x Hx.
    apply in_app_iff in Hx. destruct Hx as [Hx|Hx].
    - unfold all_scored in Hsc. rewrite Forall_forall in Hsc.
      apply Hsc, HN, Hx.
    - unfold S in Hx. apply in_map_iff in Hx. destruct Hx as [r [Hr _]].
      subst x. simpl. discriminate. }
  assert (Hnone : flat_map (promoted (collect_image_urls (imgs ++ txts))) txts
                  = []).
  { apply flat_map_nil. intros o Ho. unfold promoted.
    rewrite filter_nil_when; [reflexivity|].
    intros u Hu. apply negb_false_iff. apply url_in_In.
    apply In_collect_image_urls.
    destruct (url_in u urls) eqn:Eu.
    - apply url_in_In in Eu. unfold urls in Eu.
      apply In_collect_image_urls in Eu. destruct Eu as [n [Hn Hc]].
      exists n. split; [|exact Hc].
      apply in_app_iff. left. rewrite Himgs. apply in_app_iff. left.
      apply sorted_desc_In. apply filter_In. split; [exact Hn|].
      unfold is_image. rewrite Hc. reflexivity.
    - exists (set_score (text_image_node o u)
                        (Some (score_key (text_image_node o u) * TEXT_IMAGE_WEIGHT))).
      split; [|reflexivity].
      apply in_app_iff. left. rewrite Himgs. apply in_app_iff. right.
      unfold S.
      apply (in_map (fun n => set_score n (Some (score_key n * TEXT_IMAGE_WEIGHT)))).
      apply sorted_desc_In. unfold raw. apply in_flat_map.
      exists o. split; [rewrite <- Htxts; exact Ho|].
      unfold promoted. apply in_map. apply filter_In.
      split; [exact Hu | rewrite Eu; reflexivity]. }
  rewrite partition_result, Hfi, Hft, Hnone.
  unfold unscored_image_among_several. rewrite Hfi.
  rewrite (all_scored_no_unscored Hscored), andb_false_r.
  cbn [existsb orb sorted_desc fold_right map]. rewrite app_nil_r.
  rewrite firstn_all2; [reflexivity|].
  rewrite sorted_desc_length, Himgs, length_app. unfold IMAGE_MAX_PIECES. lia.
Qed.

Lemma partition_of_a_partition_witness :
  exists imgs txts,
    _get_image_and_text_nodes mixed_nodes = Ok (imgs, txts)
    /\ _get_image_and_text_nodes (imgs ++ txts)
       = Ok (sorted_desc score_key imgs, txts).
Proof.
  eexists. eexists. split; [vm_compute; reflexivity|].
  apply (@partition_of_a_partition mixed_nodes).
  - repeat constructor; simpl; discriminate.
  - vm_compute. lia.
  - vm_compute. reflexivity.
Defined.

(** * Query expansion *)

Lemma split_lines_nonempty (s : string) : split_lines s <> [].
Proof.
  destruct s as [|c s]; simpl; [discriminate|].
  destruct (Ascii.eqb c newline_char); [discriminate|].
  destruct (split_lines s); discriminate.
Qed.

Lemma split_lines_no_newline (s : string) :
  Forall (fun piece => has_newline piece = false) (split_lines s).
Proof.
  induction s as [|c s IH]; simpl.
  - repeat constructor.
  - destruct (Ascii.eqb c newline_char) eqn:E.
    + constructor; [reflexivity | exact IH].
    + destruct (split_lines s) as [|piece pieces].
      * constructor; [simpl; rewrite E; reflexivity | constructor].
      * inversion IH as [|? ? Hp Hrest]; subst.
        constructor; [simpl; rewrite E; exact Hp | exact Hrest].
Qed.

Lemma concat_push_char (sep : string) (c : Ascii.ascii) (p : string)
  (ps : list string) :
  String.concat sep (String c p :: ps) = String c (String.concat sep (p :: ps)).
Proof. destruct ps; reflexivity. Qed.

(** Joining the pieces with line breaks gives the text back. *)
Lemma split_lines_join (s : string) :
  String.concat (String newline_char EmptyString) (split_lines s) = s.
Proof.
  induction s as [|c s IH]; simpl; [reflexivity|].
  pose proof (split_lines_nonempty s) as Hne.
  destruct (Ascii.eqb c newline_char) eqn:E.
  - apply Ascii.eqb_eq in E. subst c.
    destruct (split_lines s) as [|p ps]; [contradiction|].
    change (String.concat (String newline_char EmptyString)
                          (EmptyString :: p :: ps))
      with (String newline_char
              (String.concat (String newline_char EmptyString) (p :: ps))).
    rewrite IH. reflexivity.
  - destruct (split_lines s) as [|p ps]; [contradiction|].
    rewrite concat_push_char, IH. reflexivity.
Qed.

Lemma py_slice_to_incl (A : Type) (n : Z) (l : list A) :
  incl (py_slice_to n l) l.
Proof.
  intros x Hx. destruct (py_slice_to_prefix n l) as [rest Hr].
  rewrite Hr. apply in_or_app. left. exact Hx.
Qed.

Section QueryExpansionFacts.
Variable strip : string -> string.
Variable format_prompt : Z -> string -> string.
Variable llm_complete : string -> Res string.

Lemma expansion_length_bound (nq : Z) (original_query : string)
  (queries : list string) :
  get_queries strip format_prompt llm_complete nq original_query = Ok queries ->
  (1 <= nq)%Z -> (Z.of_nat (List.length queries) <= nq - 1)%Z.
Proof.
  unfold get_queries.
  destruct (llm_complete (format_prompt (nq - 1) original_query))
    as [response_text|e]; cbn [bind]; [|discriminate].
  intros H Hnq. inversion H; subst queries.
  pose proof (@py_slice_to_length _ (nq - 1)
                (map strip (filter (fun q => non_empty (strip q))
                                   (split_lines response_text)))) as Hl.
  lia.
Qed.

(** X16: query expansion asks the LLM for [num_queries - 1] queries and
    returns at most that many (for [num_queries >= 1]), never padding: each
    returned query is the stripped form of a line of the LLM's answer, is
    not empty, and the answer is the lines joined by line breaks; an LLM
    failure is raised as it is. *)
Theorem expansion_returns_at_most_the_requested_queries (nq : Z)
  (original_query : string) :
  match llm_complete (format_prompt (nq - 1) original_query) with
  | Err e =>
      get_queries strip format_prompt llm_complete nq original_query = Err e
  | Ok response_text =>
      exists queries,
        get_queries strip format_prompt llm_complete nq original_query
        = Ok queries
        /\ ((1 <= nq)%Z -> (Z.of_nat (List.length queries) <= nq - 1)%Z)
        /\ Forall (fun q => q <> EmptyString
                            /\ exists line,
                                In line (split_lines response_text)
                                /\ has_newline line = false
                                /\ q = strip line) queries
        /\ String.concat (String newline_char EmptyString)
                         (split_lines response_text) = response_text
  end.
Proof.
  unfold get_queries.
  destruct (llm_complete (format_prompt (nq - 1) original_query))
    as [response_text|e]; cbn [bind]; [|reflexivity].
  eexists. split; [reflexivity|]. split; [|split].
  - intros Hnq.
    pose proof (@py_slice_to_length _ (nq - 1)
                  (map strip (filter (fun q => non_empty (strip q))
                                     (split_lines response_text)))) as H.
    lia.
  - apply Forall_forall. intros q Hq.
    apply py_slice_to_incl in Hq. apply in_map_iff in Hq.
    destruct Hq as [line [Hl Hin]]. apply filter_In in Hin.
    destruct Hin as [Hin Hne]. subst q. split.
    + intros C. rewrite C in Hne. discriminate.
    + exists line. split; [exact Hin|]. split; [|reflexivity].
      pose proof (split_lines_no_newline response_text) as Hall.
      rewrite Forall_forall in Hall. apply Hall. exact Hin.
  - apply split_lines_join.
Qed.

(** X17: a retriever that expands queries with [_get_queries] fans out the
    original query first and at most [num_queries] queries in all, one
    query when [num_queries] is 1 or less. *)
Theorem fan_out_has_at_most_num_queries (self : MyQueryFusionRetriever)
  (query_str : string) (queries : list string) :
  _get_queries self
  = get_queries strip format_prompt llm_complete (num_queries self) ->
  build_queries self query_str = Ok queries ->
  hd_error queries = Some query_str
  /\ (Z.of_nat (List.length queries) <= Z.max 1 (num_queries self))%Z.
Proof.
  intros Hg Hb. unfold build_queries in Hb.
  destruct (1 <? num_queries self)%Z eqn:E.
  - apply Z.ltb_lt in E. rewrite Hg in Hb.
    pose proof (@expansion_length_bound (num_queries self) query_str) as Hlen.
    destruct (get_queries strip format_prompt llm_complete (num_queries self)
                          query_str) as [more|]; [|discriminate].
    cbn [bind] in Hb. inversion Hb; subst queries.
    split; [reflexivity|].
    specialize (Hlen more eq_refl). cbn [List.length]. lia.
  - apply Z.ltb_ge in E. inversion Hb; subst queries.
    split; [reflexivity|]. simpl. lia.
Qed.

End QueryExpansionFacts.

Lemma fan_out_has_at_most_num_queries_witness :
  hd_error ["q"; "one"; "two"]%string = Some "q"%string
  /\ (Z.of_nat (List.length ["q"; "one"; "two"]%string)
      <= Z.max 1 (num_queries (expanding 3)))%Z.
Proof.
  apply (@fan_out_has_at_most_num_queries drop_spaces (fun _ q => q)
           (fun _ => Ok ("one" ++ newline ++ "  " ++ newline ++ " two")%string)
           (expanding 3) "q").
  - reflexivity.
  - vm_compute. reflexivity.
Defined.

(** * The results mapping *)

Lemma for_each_invariant (A S : Type) (P : S -> Prop)
  (body : A -> S -> Res S) (l : list A) :
  (forall x st st', In x l -> P st -> body x st = Ok st' -> P st') ->
  forall st r, P st -> for_each body l st = Ok r -> P r.
Proof.
  induction l as [|a l IH]; intros Hstep st r Hst H; simpl in H.
  - inversion H; subst. exact Hst.
  - destruct (body a st) as [st1|] eqn:E; [|discriminate]. cbn [bind] in H.
    apply (IH (fun x s s' Hx => Hstep x s s' (or_intror Hx)) st1 r);
      [|exact H].
    apply (Hstep a st st1); auto. left. reflexivity.
Qed.

Lemma fold_left_invariant (A S : Type) (P : S -> Prop)
  (f : S -> A -> S) (l : list A) :
  (forall x st, In x l -> P st -> P (f st x)) ->
  forall st, P st -> P (fold_left f l st).
Proof.
  induction l as [|a l IH]; intros Hstep st Hst; simpl; [exact Hst|].
  apply IH; [intros x s Hx; apply Hstep; right; exact Hx|].
  apply Hstep; [left; reflexivity | exact Hst].
Qed.

Lemma in_combine_fst (A B : Type) (ks : list A) (vs : list B) (k : A) (v : B) :
  In (k, v) (combine ks vs) -> In k ks.
Proof.
  revert vs; induction ks as [|a ks IH]; intros [|b vs] H; simpl in *;
    try contradiction.
  destruct H as [H|H]; [inversion H; auto | right; eapply IH; eauto].
Qed.

(** X18: the results mapping handed to the fusion strategies, whether
    built by the concurrent or by the sequential runner, holds every
    [(query, retriever_index)] key at most once, and only keys of calls that
    were made: a query named twice by the expansion leaves one entry per
    retriever. *)
Theorem results_mapping_has_distinct_keys (self : MyQueryFusionRetriever)
  (order : list nat) (queries : list string) (results : Results) :
  _run_async_queries self order queries = Some (Ok results)
  \/ _run_sync_queries self queries = Ok results ->
  NoDup (keys results)
  /\ forall k, In k (keys results) -> In k (task_queries self queries).
Proof.
  set (P := fun r : Results =>
              NoDup (keys r)
              /\ forall k, In k (keys r) -> In k (task_queries self queries)).
  assert (Hset : forall k v r, In k (task_queries self queries) -> P r ->
                               P (dict_set query_tuple_eqb k v r)).
  { intros k v r Hk [H1 H2]. split.
    - apply (NoDup_keys_dict_set query_tuple_eqb query_tuple_eqb_eq); exact H1.
    - intros k' Hk'.
      apply (In_keys_dict_set query_tuple_eqb query_tuple_eqb_eq) in Hk'.
      destruct Hk' as [Hk'|Hk']; [auto | subst; exact Hk]. }
  assert (Hinit : P []) by (split; [constructor | intros k []]).
  intros [H|H].
  - unfold _run_async_queries in H.
    destruct (gather (tasks self queries) order) as [[rs|]|];
      try discriminate.
    inversion H; subst results. unfold zip_results.
    apply (@fold_left_invariant _ _ P); [|exact Hinit].
    intros [k v] r Hin Hr. apply Hset; [|exact Hr].
    eapply in_combine_fst. exact Hin.
  - unfold _run_sync_queries in H.
    refine (@for_each_invariant _ _ P _ _ _ [] results Hinit H).
    intros q st st' Hq Hst Hin.
    refine (@for_each_invariant _ _ P _ _ _ st st' Hst Hin).
    intros [i r] s s' Hir Hs Hbody. cbn [fst snd] in Hbody.
    destruct (retrieve r q) as [res|]; [|discriminate].
    cbn [bind] in Hbody. inversion Hbody; subst s'.
    apply Hset; [|exact Hs].
    unfold task_queries. apply in_flat_map. exists q. split; [exact Hq|].
    apply in_map. eapply in_combine_fst. exact Hir.
Qed.

Lemma results_mapping_has_distinct_keys_witness :
  exists results,
    _run_sync_queries (two_sources SIMPLE 2) ["q"; "q"]%string = Ok results
    /\ NoDup (keys results)
    /\ List.length results = 2%nat.
Proof.
  eexists. split; [vm_compute; reflexivity|]. split; [|reflexivity].
  apply (@results_mapping_has_distinct_keys (two_sources SIMPLE 2) []
           ["q"; "q"]%string).
  right. vm_compute. reflexivity.
Defined.

(** * The asynchronous synthesizer *)

Section AsyncSynthesizerFacts.
Variable DEFAULT_TEXT_QA_PROMPT : Template.
Variable get_content_llm : NodeWithScore -> string.

(** X19: on an engine built by [__init__], [asynthesize] never returns the
    batch [Response]; in the needs-image branch, when the partitioner, the
    joining of the image urls and the multi-modal client do not raise, it
    returns the client's asynchronous stream for a prompt that holds the
    image list once, with the input nodes as source nodes and the
    partitioner's image nodes as image documents. *)
Theorem asynthesize_streams_with_images (mm : MultiModalLLM)
  (llm : option LLM) (tq iq : option Template) (query_str : string)
  (nodes imgs txts : list NodeWithScore) (images_str : string)
  (deltas : list string) :
  _get_image_and_text_nodes nodes = Ok (imgs, txts) ->
  join_image_urls imgs = Ok images_str ->
  mm_astream_complete mm
    (_image_qa_template (built DEFAULT_TEXT_QA_PROMPT true mm llm tq iq)
       (with_image_list (text_context get_content_llm txts) images_str)
       query_str)
    (map node imgs) = Ok deltas ->
  asynthesize get_content_llm
    (built DEFAULT_TEXT_QA_PROMPT true mm llm tq iq) query_str nodes
  = Ok (AsyncStreamingResponse (aget_token_gen (AsyncGen deltas)) nodes)
  /\ (List.length (map node imgs) <= 5)%nat
  /\ forall need_image nodes' r,
       asynthesize get_content_llm
         (built DEFAULT_TEXT_QA_PROMPT need_image mm llm tq iq)
         query_str nodes' = Ok r ->
       is_streaming r = true.
Proof.
  intros Hp Hj Hm. split; [|split].
  - unfold asynthesize. rewrite Hp. cbn [bind built _stream].
    unfold asynthesize_stream.
    cbn [built _need_image _multi_modal_llm _image_qa_template] in *.
    rewrite Hj. cbn [bind]. rewrite Hm. reflexivity.
  - rewrite length_map. rewrite partition_result in Hp.
    destruct (unscored_image_among_several nodes || _); [discriminate|].
    match type of Hp with
    | Ok (firstn ?n ?l, _) = _ =>
        assert (Hi : imgs = firstn n l) by congruence
    end.
    rewrite Hi. apply firstn_le_length.
  - intros need_image nodes' r. unfold asynthesize.
    destruct (_get_image_and_text_nodes nodes') as [[imgs' txts']|];
      [|discriminate].
    cbn [bind built _stream]. unfold asynthesize_stream.
    match goal with
    | |- bind ?m _ = _ -> _ => destruct m; cbn [bind]
    end; [|discriminate].
    intros H; inversion H; reflexivity.
Qed.

End AsyncSynthesizerFacts.

Lemma asynthesize_streams_with_images_witness :
  exists deltas,
    asynthesize content
      (built plain_template true echo_multi_modal_llm None None None)
      "q" [image_node "i1" (Some (9 # 10))]
    = Ok (AsyncStreamingResponse (aget_token_gen (AsyncGen deltas))
                                 [image_node "i1" (Some (9 # 10))]).
Proof.
  eexists.
  eapply (@asynthesize_streams_with_images plain_template content
            echo_multi_modal_llm None None None "q"
            [image_node "i1" (Some (9 # 10))]); reflexivity.
Defined.
